(** * Verification of the YouTube digest pipeline (yt_news.py, yt_minutes.py)

    Python [str] values are modelled as lists of Unicode code points
    ([list Z]); [len] is [length], slicing is [take]/[drop], and string
    comparison is lexicographic on code points, as in CPython. *)

From Stdlib Require Import String Ascii ZArith Lia.
From Stdlib Require Import Sorted.
From stdpp Require Import base list gmap sets.

Open Scope Z_scope.

Definition str := list Z.

(** ASCII literals, converted to code points. *)
Definition s_ (s : string) : str :=
  map (fun a => Z.of_nat (Ascii.nat_of_ascii a)) (list_ascii_of_string s).

Definition str_eqb (a b : str) : bool := bool_decide (a = b).

(** Python's lexicographic [<] on strings. *)
Fixpoint str_ltb (a b : str) : bool :=
  match a, b with
  | [], [] => false
  | [], _ :: _ => true
  | _ :: _, [] => false
  | x :: a', y :: b' => if x <? y then true else if y <? x then false else str_ltb a' b'
  end.

(** Python's [a >= b]. *)
Definition str_geb (a b : str) : bool := negb (str_ltb a b).

(** Python truthiness of a string: [bool(s)]. *)
Definition truthy (s : str) : bool :=
  match s with [] => false | _ => true end.

(** Whitespace as CPython's [Py_UNICODE_ISSPACE]: used by [str.strip()],
    [str.split()] and the [\s] class of [re] on [str] patterns. *)
Definition is_ws (c : Z) : bool :=
  ((9 <=? c) && (c <=? 13)) || ((28 <=? c) && (c <=? 32)) || (c =? 133) ||
  (c =? 160) || (c =? 5760) || ((8192 <=? c) && (c <=? 8202)) ||
  (c =? 8232) || (c =? 8233) || (c =? 8239) || (c =? 8287) || (c =? 12288).

(** Substring test [k in text]. *)
Fixpoint is_prefix (k t : str) : bool :=
  match k, t with
  | [], _ => true
  | _ :: _, [] => false
  | x :: k', y :: t' => (x =? y) && is_prefix k' t'
  end.

Fixpoint str_contains (k t : str) : bool :=
  match t with
  | [] => is_prefix k []
  | _ :: t' => is_prefix k t || str_contains k t'
  end.

(* ------------------------------------------------------------------ *)
(** ** normalize_text (yt_minutes.py) *)

Fixpoint lstrip_ws (s : str) : str :=
  match s with
  | c :: t => if is_ws c then lstrip_ws t else s
  | [] => []
  end.

(** [s.strip()] *)
Definition strip_ws (s : str) : str := rev (lstrip_ws (rev (lstrip_ws s))).

(** [re.sub(r"\s+", " ", s)]: every maximal whitespace run becomes one
    space; [in_run] records that the previous character was whitespace. *)
Fixpoint sub_ws_runs (in_run : bool) (s : str) : str :=
  match s with
  | [] => []
  | c :: t =>
      if is_ws c then (if in_run then sub_ws_runs true t else 32 :: sub_ws_runs true t)
      else c :: sub_ws_runs false t
  end.

Definition normalize_text (s : str) : str := sub_ws_runs false (strip_ws s).

(* ------------------------------------------------------------------ *)
(** ** bullets_from_description (yt_minutes.py) *)

(** [s.split(sep)] for a one-character separator (keeps empty pieces). *)
Fixpoint split_on_acc (sep : Z) (cur : str) (s : str) : list str :=
  match s with
  | [] => [rev cur]
  | c :: t => if c =? sep then rev cur :: split_on_acc sep [] t
              else split_on_acc sep (c :: cur) t
  end.

Definition split_on (sep : Z) (s : str) : list str := split_on_acc sep [] s.

(** Characters of [line.strip(" ・-•\t")]. *)
Definition is_mark (c : Z) : bool :=
  (c =? 32) || (c =? 12539) || (c =? 45) || (c =? 8226) || (c =? 9).

Fixpoint lstrip_marks (s : str) : str :=
  match s with
  | c :: t => if is_mark c then lstrip_marks t else s
  | [] => []
  end.

Definition strip_marks (s : str) : str := rev (lstrip_marks (rev (lstrip_marks s))).

(** The class [[。.!?・•\-]]. *)
Definition is_delim (c : Z) : bool :=
  (c =? 12290) || (c =? 46) || (c =? 33) || (c =? 63) || (c =? 12539) ||
  (c =? 8226) || (c =? 45).

(** [re.split(r"[。.!?・•\-]+", line)]: the pattern matches maximal runs
    of delimiters; the pieces between them (possibly empty) are returned. *)
Fixpoint split_delims_acc (in_run : bool) (cur : str) (s : str) : list str :=
  match s with
  | [] => [rev cur]
  | c :: t =>
      if is_delim c then
        (if in_run then split_delims_acc true cur t
         else rev cur :: split_delims_acc true [] t)
      else split_delims_acc false (c :: cur) t
  end.

Definition split_delims (s : str) : list str := split_delims_acc false [] s.

(** The inner loop: [for f in fragments: f = normalize_text(f); if len(f) >= 8: parts.append(f)]. *)
Definition add_fragments (parts : list str) (fragments : list str) : list str :=
  fold_left (fun parts f =>
    let f := normalize_text f in
    if (8 <=? length f)%nat then parts ++ [f] else parts) fragments parts.

(** The outer loop over the lines. *)
Definition add_line (parts : list str) (line : str) : list str :=
  let line := strip_marks line in
  if negb (truthy line) then parts
  else add_fragments parts (split_delims line).

Definition bullets_from_description (desc : str) (max_items : nat) : list str :=
  if negb (truthy desc) then []
  else
    let raw := split_on 10 (List.filter (fun c => negb (c =? 13)) desc) in
    let parts := fold_left add_line raw [] in
    take max_items parts.

(* ------------------------------------------------------------------ *)
(** ** KEYWORDS and make_tags (both scripts) *)

(** The dict literal [KEYWORDS]; a Python dict iterates in insertion
    order, so it is an association list in source order. *)
Definition KEYWORDS : list (str * str) := [
  (s_ "multimodal",   [12510; 12523; 12481; 12514; 12540; 12480; 12523]);
  (s_ "vision",       [30011; 20687; 47; 21205; 30011]);
  (s_ "video",        [30011; 20687; 47; 21205; 30011]);
  (s_ "audio",        [38899; 22768]);
  (s_ "agent",        [12456; 12540; 12472; 12455; 12531; 12488]);
  (s_ "tool",         [12484; 12540; 12523; 23455; 34892]);
  (s_ "safety",       [23433; 20840; 24615]);
  (s_ "copyright",    [33879; 20316; 27177]);
  (s_ "regulation",   [35215; 21046]);
  (s_ "construction", [24314; 35373; 47; 26045; 24037]);
  (s_ "marketing",    [21942; 26989; 47; 12510; 12540; 12465]);
  (s_ "open-source",  [79; 83; 83]);
  (s_ "finance",      [37329; 34701])
].

(** ["一般トピック"] *)
Definition GENERAL_TAG : str := [19968; 33324; 12488; 12500; 12483; 12463].

(** [make_tags]; [lower] is [str.lower] (kept abstract: full Unicode case
    mapping, which may even depend on context, as for final sigma). *)
Definition make_tags (lower : str -> str) (title desc : str) : list str :=
  let text := lower (title ++ [10] ++ desc) in
  let tags := map snd (List.filter (fun kv => str_contains kv.1 text) KEYWORDS) in
  match take 5 tags with
  | [] => [GENERAL_TAG]
  | ts => ts
  end.

(** [str.lower] on ASCII letters; every other code point is unchanged.
    It agrees with [str.lower] on ASCII text and on ["…"]. *)
Definition lower_ascii (s : str) : str :=
  map (fun c => if (65 <=? c) && (c <=? 90) then c + 32 else c) s.

(* ------------------------------------------------------------------ *)
(** ** trim (yt_news.py) *)

(** [s.split()]: maximal runs of non-whitespace. *)
Fixpoint split_ws_acc (cur : str) (s : str) : list str :=
  match s with
  | [] => match cur with [] => [] | _ => [rev cur] end
  | c :: t =>
      if is_ws c then
        match cur with [] => split_ws_acc [] t | _ => rev cur :: split_ws_acc [] t end
      else split_ws_acc (c :: cur) t
  end.

Definition split_ws (s : str) : list str := split_ws_acc [] s.

(** [sep.join(parts)] *)
Fixpoint join_with (sep : str) (parts : list str) : str :=
  match parts with
  | [] => []
  | [p] => p
  | p :: ps => p ++ sep ++ join_with sep ps
  end.

(** ["…"] *)
Definition ELLIPSIS : str := [8230].

Definition trim (s : str) (n : nat) : str :=
  let s := join_with [32] (split_ws s) in
  if (n <? length s)%nat then take n s ++ ELLIPSIS else s.

(* ------------------------------------------------------------------ *)
(** ** chunked (both scripts) *)

(** The generator [chunked(iterable, size)]: each round takes
    [list(islice(it, size))] and stops at the first empty chunk.  The
    fuel counts rounds; [length l + 1] rounds always reach the empty
    chunk (see [chunked_go_enough]). *)
Fixpoint chunked_go {A} (fuel size : nat) (l : list A) : list (list A) :=
  match fuel with
  | O => []
  | S fuel' =>
      match take size l with
      | [] => []
      | chunk => chunk :: chunked_go fuel' size (drop size l)
      end
  end.

Definition chunked {A} (l : list A) (size : nat) : list (list A) :=
  chunked_go (S (length l)) size l.

(* ------------------------------------------------------------------ *)
(** ** Records of the API payloads *)

(** An item of [channels.list]: [contentDetails.relatedPlaylists.uploads]
    ([None] when the key is missing). *)
Record ChannelItem := { ci_uploads : option str }.

(** An item of [playlistItems.list]: [contentDetails.videoId] and
    [contentDetails.videoPublishedAt] ([None] when absent or null). *)
Record PlaylistItem := { pi_videoId : str; pi_videoPublishedAt : option str }.

(** An item of [videos.list]: [id] and the [snippet] fields read. *)
Record Meta := {
  m_id : str;
  m_title : option str;
  m_channelTitle : option str;
  m_description : option str;
  m_publishedAt : str
}.

(* ------------------------------------------------------------------ *)
(** ** list_recent_video_ids: the filtering loop *)

Definition recent_ids (published_after_z : str) (items : list PlaylistItem) : list str :=
  fold_left (fun ids it =>
    let vid := pi_videoId it in
    match pi_videoPublishedAt it with
    | Some pub => if truthy pub && str_geb pub published_after_z then ids ++ [vid] else ids
    | None => ids
    end) items [].

(* ------------------------------------------------------------------ *)
(** ** metas.sort(key=lambda x: x["snippet"]["publishedAt"], reverse=True) *)

(** A stable ascending insertion: [x] goes before the first element
    whose key is strictly greater. *)
Fixpoint insert_by_pub (x : Meta) (l : list Meta) : list Meta :=
  match l with
  | [] => [x]
  | y :: t => if str_ltb (m_publishedAt x) (m_publishedAt y) then x :: y :: t
              else y :: insert_by_pub x t
  end.

Definition sort_by_pub (l : list Meta) : list Meta :=
  fold_left (fun acc x => insert_by_pub x acc) l [].

(** CPython's [list.sort(reverse=True)] reverses the list, sorts it
    stably, and reverses it again. *)
Definition sort_by_pub_desc (l : list Meta) : list Meta :=
  rev (sort_by_pub (rev l)).

(* ------------------------------------------------------------------ *)
(** ** Effects: the calls made, and uncaught exceptions *)

(** Slack payloads: a plain text ([post_to_slack_text], yt_minutes.py) or
    Block Kit blocks ([post_to_slack], yt_news.py). *)
Inductive Block :=
| BHeader (text : str)
| BSection (text : str)
| BContext (texts : list str)
| BDivider.

Inductive Msg :=
| MsgText (text : str)
| MsgBlocks (text : str) (blocks : list Block).

(** One outbound call.  [EvVideos chunk] is the [videos.list] request with
    [id=",".join(chunk)]. *)
Inductive Event :=
| EvChannels (channel_id : str)
| EvPlaylist (playlist_id : str) (max_results : Z)
| EvVideos (chunk : list str)
| EvPost (m : Msg).

(** [raise_for_status] raises [HTTPError]; a missing dict key raises [KeyError]. *)
Inductive Error := HTTPError | KeyError.

Inductive res (A : Type) := Ok (a : A) | Err (e : Error).
Arguments Ok {A} a.
Arguments Err {A} e.

(** A run: the log of calls made so far, threaded through; an exception
    stops the run and keeps the log. *)
Definition M (A : Type) := list Event -> list Event * res A.

Definition M_ret {A} (a : A) : M A := fun log => (log, Ok a).

Definition M_bind {A B} (m : M A) (k : A -> M B) : M B := fun log =>
  match m log with
  | (log', Ok a) => k a log'
  | (log', Err e) => (log', Err e)
  end.

Definition M_raise {A} (e : Error) : M A := fun log => (log, Err e).

Notation "'let!' x ':=' m 'in' k" := (M_bind m (fun x => k))
  (at level 200, x name, m at level 100, k at level 200).

(** A network call: logged, then its response (or its HTTP error). *)
Definition call {A} (ev : Event) (r : res A) : M A := fun log => (log ++ [ev], r).

(** The responses of the YouTube Data API and of the Slack webhook. *)
Record Api := {
  api_channels : str -> res (list ChannelItem);
  api_playlist : str -> Z -> res (list PlaylistItem);
  api_videos : list str -> res (list Meta);
  api_post : Msg -> res unit
}.

(** The environment variables read at import time. *)
Record Config := {
  CHANNEL_IDS : list str;
  HOURS_WINDOW : Z;
  MAX_PER_CHANNEL : Z
}.

(** What the [datetime] library supplies: the cutoff
    [to_iso_z(now_utc() - timedelta(hours=HOURS_WINDOW))], the current
    time in JST as ["%Y-%m-%d %H:%M"] and ["%Y-%m-%d"], [to_jst_str] and
    [str.lower]. *)
Record Runtime := {
  published_after_z : str;
  now_jst_minute : str;
  now_jst_date : str;
  to_jst_str : str -> str;
  py_lower : str -> str
}.

Section Pipeline.
Variable api : Api.
Variable cfg : Config.
Variable rt : Runtime.

Definition get_uploads_pid (channel_id : str) : M (option str) :=
  let! items := call (EvChannels channel_id) (api_channels api channel_id) in
  match items with
  | [] => M_ret None
  | it :: _ => match ci_uploads it with
               | Some u => M_ret (Some u)
               | None => M_raise KeyError
               end
  end.

Definition list_recent_video_ids (uploads_pid published_after_z : str) : M (list str) :=
  let max_results := Z.min (MAX_PER_CHANNEL cfg) 50 in
  let! items := call (EvPlaylist uploads_pid max_results) (api_playlist api uploads_pid max_results) in
  M_ret (recent_ids published_after_z items).

Fixpoint fetch_chunks (chunks : list (list str)) (items : list Meta) : M (list Meta) :=
  match chunks with
  | [] => M_ret items
  | chunk :: rest =>
      let! r := call (EvVideos chunk) (api_videos api chunk) in
      fetch_chunks rest (items ++ r)
  end.

Definition fetch_videos_meta (video_ids : list str) : M (list Meta) :=
  fetch_chunks (chunked video_ids 50) [].

(** [all_ids.update(ids)] *)
Definition set_update (all_ids : gset str) (ids : list str) : gset str :=
  all_ids ∪ list_to_set ids.

(** The loop of [main] over [CHANNEL_IDS], accumulating [all_ids]. *)
Fixpoint collect_ids (published_after_z : str) (chs : list str) (all_ids : gset str)
  : M (gset str) :=
  match chs with
  | [] => M_ret all_ids
  | ch :: rest =>
      let! upid := get_uploads_pid ch in
      match upid with
      | Some u =>
          if truthy u then
            let! ids := list_recent_video_ids u published_after_z in
            collect_ids published_after_z rest (set_update all_ids ids)
          else collect_ids published_after_z rest all_ids
      | None => collect_ids published_after_z rest all_ids
      end
  end.

Definition post (m : Msg) : M unit := call (EvPost m) (api_post api m).

(* ------------------------------------------------------------------ *)
(** ** Rendering *)

(** [str(n)] for a Python [int]. *)
Fixpoint dec_digits (fuel : nat) (n : Z) (acc : str) : str :=
  match fuel with
  | O => acc
  | S fuel' =>
      let acc' := (48 + n mod 10) :: acc in
      if n <? 10 then acc' else dec_digits fuel' (n / 10) acc'
  end.

Definition py_str_int (n : Z) : str :=
  if n <? 0 then 45 :: dec_digits (S (Z.to_nat (Z.log2 (- n)))) (- n) []
  else dec_digits (S (Z.to_nat (Z.log2 n))) n [].

Definition get_or (o : option str) (default : str) : str :=
  match o with Some s => s | None => default end.

Definition WATCH_URL : str := s_ "https://www.youtube.com/watch?v=".

Definition lit_minutes_head : str := [128196; 32; 65; 73; 12488; 12524; 12531; 12489; 31038; 20869; 22577; 65288].
Definition lit_close_paren : str := [65289].
Definition lit_agenda_open : str := [12304; 35696; 38988].
Definition lit_agenda_close : str := [12305].
Definition lit_date : str := [45; 32; 26085; 26178; 65306].
Definition lit_presenter : str := [45; 32; 30330; 34920; 32773; 65306].
Definition lit_summary : str := [45; 32; 27010; 35201; 65306].
Definition lit_bullet : str := [32; 32; 32; 12539].
Definition lit_url : str := [45; 32; 85; 82; 76; 65306].
Definition lit_tag : str := [45; 32; 12479; 12464; 65306].
Definition lit_none : str := [65288; 12394; 12375; 65289].
Definition lit_rule : str := repeat 9472 24.
Definition lit_no_desc : str := [65288; 35500; 26126; 12394; 12375; 65289].
Definition lit_no_new : str := [128196; 32; 65; 73; 12488; 12524; 12531; 12489; 31038; 20869; 22577; 65306; 26032; 30528; 12394; 12375; 65288].
Definition lit_past : str := [32; 74; 83; 84; 44; 32; 36942; 21435].
Definition lit_h_close : str := [104; 65289].
Definition lit_news_head : str := [65; 73; 12488; 12524; 12531; 12489; 26032; 30528; 65288; 36942; 21435].
Definition lit_news_text : str := [65; 73; 12488; 12524; 12531; 12489; 26032; 30528].

(** The lines of one item in [build_minutes_text] (yt_minutes.py). *)
Definition minutes_item_lines (idx : nat) (it : Meta) : list str :=
  let title := get_or (m_title it) (s_ "(no title)") in
  let url := WATCH_URL ++ m_id it in
  let chname := get_or (m_channelTitle it) (s_ "(unknown)") in
  let pub_jst := to_jst_str rt (m_publishedAt it) in
  let desc := get_or (m_description it) [] in
  let tags := join_with [32] (map (fun t => [35] ++ t) (make_tags (py_lower rt) title desc)) in
  let bullets :=
    if truthy desc then
      match bullets_from_description desc 3 with
      | [] => [take 100 (normalize_text desc) ++ ELLIPSIS]
      | bs => bs
      end
    else [lit_no_desc] in
  [lit_agenda_open ++ py_str_int (Z.of_nat idx) ++ lit_agenda_close ++ title;
   lit_date ++ pub_jst ++ s_ " JST";
   lit_presenter ++ chname;
   lit_summary] ++
  map (fun b => lit_bullet ++ b) bullets ++
  [lit_url ++ url;
   lit_tag ++ (if truthy tags then tags else lit_none);
   lit_rule;
   []].

Fixpoint minutes_items (idx : nat) (metas : list Meta) : list str :=
  match metas with
  | [] => []
  | it :: rest => minutes_item_lines idx it ++ minutes_items (S idx) rest
  end.

Definition build_minutes_text (metas : list Meta) : str :=
  join_with [10] ([lit_minutes_head ++ now_jst_date rt ++ lit_close_paren; []] ++
                  minutes_items 1 metas).

(** The "no new items" text of yt_minutes.py. *)
Definition no_new_items_text : str :=
  lit_no_new ++ now_jst_minute rt ++ lit_past ++ py_str_int (HOURS_WINDOW cfg) ++ lit_h_close.

(** [main] of yt_minutes.py.  [list(all_ids)] iterates the set in an
    order Python leaves unspecified; [elements] is one such order. *)
Definition main_minutes : M unit :=
  let! all_ids := collect_ids (published_after_z rt) (CHANNEL_IDS cfg) ∅ in
  if bool_decide (all_ids = ∅) then
    post (MsgText no_new_items_text)
  else
    let! metas := fetch_videos_meta (elements all_ids) in
    let metas := sort_by_pub_desc metas in
    post (MsgText (build_minutes_text metas)).

(** The blocks of one item in [main] of yt_news.py. *)
Definition news_item_blocks (it : Meta) : list Block :=
  let title := get_or (m_title it) (s_ "(no title)") in
  let url := WATCH_URL ++ m_id it in
  let chname := get_or (m_channelTitle it) (s_ "(unknown)") in
  let pub_jst := to_jst_str rt (m_publishedAt it) in
  let desc := trim (get_or (m_description it) lit_no_desc) 180 in
  let tags := join_with (s_ ", ") (make_tags (py_lower rt) title desc) in
  [BSection (s_ "*<" ++ url ++ s_ "|" ++ title ++ s_ ">*" ++ [10] ++ desc);
   BContext [s_ ":bust_in_silhouette: " ++ chname;
             s_ ":calendar: " ++ pub_jst ++ s_ " JST";
             s_ ":label: " ++ tags];
   BDivider].

(** [main] of yt_news.py. *)
Definition main_news : M unit :=
  let! all_ids := collect_ids (published_after_z rt) (CHANNEL_IDS cfg) ∅ in
  if bool_decide (all_ids = ∅) then M_ret tt
  else
    let! metas := fetch_videos_meta (elements all_ids) in
    let metas := sort_by_pub_desc metas in
    let blocks := [BHeader (lit_news_head ++ py_str_int (HOURS_WINDOW cfg) ++ lit_h_close)] ++
                  concat (map news_item_blocks metas) in
    post (MsgBlocks lit_news_text blocks).

End Pipeline.

(* ------------------------------------------------------------------ *)
(** ** Observations of a log *)

(** The [channels.list] requests, in order, in a log of calls. *)
Fixpoint channel_requests (log : list Event) : list str :=
  match log with
  | [] => []
  | EvChannels ch :: rest => ch :: channel_requests rest
  | _ :: rest => channel_requests rest
  end.

(** A call of the channel loop: a [channels.list] request, or a
    [playlistItems.list] request with [maxResults = max_results]. *)
Definition lookup_call (max_results : Z) (e : Event) : Prop :=
  match e with
  | EvChannels _ => True
  | EvPlaylist _ m => m = max_results
  | _ => False
  end.

(* ------------------------------------------------------------------ *)
(** ** Readings of the spec, observations, sample inputs *)

(** The Slack messages delivered, in order, in a log of calls. *)
Fixpoint posts (log : list Event) : list Msg :=
  match log with
  | [] => []
  | EvPost m :: rest => m :: posts rest
  | _ :: rest => posts rest
  end.

(** The [videos.list] batches requested, in order, in a log of calls. *)
Fixpoint video_requests (log : list Event) : list (list str) :=
  match log with
  | [] => []
  | EvVideos chunk :: rest => chunk :: video_requests rest
  | _ :: rest => video_requests rest
  end.

(** The filter condition [pub and pub >= published_after_z]. *)
Definition keep_recent (published_after_z : str) (it : PlaylistItem) : bool :=
  match pi_videoPublishedAt it with
  | Some pub => truthy pub && str_geb pub published_after_z
  | None => false
  end.

(** The recency filter as the spec words it: the ids of the entries that
    have a timestamp, and whose timestamp is [>=] the cutoff. *)
Definition spec_recent (cutoff : str) (items : list PlaylistItem) : list str :=
  map pi_videoId (List.filter (fun it =>
    match pi_videoPublishedAt it with
    | Some p => str_geb p cutoff
    | None => false
    end) items).

Definition sample_api (items : list PlaylistItem) : Api := {|
  api_channels := fun _ => Ok [];
  api_playlist := fun _ _ => Ok items;
  api_videos := fun _ => Ok [];
  api_post := fun _ => Ok tt
|}.

Definition sample_cfg : Config := {|
  CHANNEL_IDS := [s_ "UC1"];
  HOURS_WINDOW := 24;
  MAX_PER_CHANNEL := 10
|}.

Definition sample_rt : Runtime := {|
  published_after_z := s_ "2026-10-18T00:00:00Z";
  now_jst_minute := s_ "2026-10-19 09:00";
  now_jst_date := s_ "2026-10-19";
  to_jst_str := fun s => s;
  py_lower := lower_ascii
|}.

(** A single channel whose uploads playlist is ["UU1"], answering [items]. *)
Definition one_channel_api (items : list PlaylistItem) : Api := {|
  api_channels := fun _ => Ok [{| ci_uploads := Some (s_ "UU1") |}];
  api_playlist := fun _ _ => Ok items;
  api_videos := fun _ => Ok [];
  api_post := fun _ => Ok tt
|}.

(** [channels.list] fails with an HTTP error. *)
Definition channels_down_api : Api := {|
  api_channels := fun _ => Err HTTPError;
  api_playlist := fun _ _ => Ok [];
  api_videos := fun _ => Ok [];
  api_post := fun _ => Ok tt
|}.

(** The first channel item has no [uploads] key, the second has one. *)
Definition first_item_without_uploads_api : Api := {|
  api_channels := fun _ => Ok [{| ci_uploads := None |}; {| ci_uploads := Some (s_ "UU1") |}];
  api_playlist := fun _ _ => Ok [];
  api_videos := fun _ => Ok [];
  api_post := fun _ => Ok tt
|}.

(** A [videos.list] item that echoes its id as its timestamp. *)
Definition echo_meta (i : str) : Meta :=
  {| m_id := i; m_title := None; m_channelTitle := None; m_description := None; m_publishedAt := i |}.

(** [videos.list] answers every requested id. *)
Definition echo_api : Api := {|
  api_channels := fun _ => Ok [];
  api_playlist := fun _ _ => Ok [];
  api_videos := fun c => Ok (map echo_meta c);
  api_post := fun _ => Ok tt
|}.

(** A single channel whose uploads playlist is ["UU1"], answering [items];
    [videos.list] answers every requested id. *)
Definition one_channel_echo_api (items : list PlaylistItem) : Api := {|
  api_channels := fun _ => Ok [{| ci_uploads := Some (s_ "UU1") |}];
  api_playlist := fun _ _ => Ok items;
  api_videos := fun c => Ok (map echo_meta c);
  api_post := fun _ => Ok tt
|}.

(** [videos.list] fails on any batch of fewer than 50 ids. *)
Definition short_batch_fails_api : Api := {|
  api_channels := fun _ => Ok [];
  api_playlist := fun _ _ => Ok [];
  api_videos := fun c => if (length c =? 50)%nat then Ok [] else Err HTTPError;
  api_post := fun _ => Ok tt
|}.

Definition sixty_ids : list str := map (fun n => [Z.of_nat n]) (seq 0 60).

(** The label ["画像/動画"] shared by ["vision"] and ["video"]. *)
Definition IMAGE_VIDEO_TAG : str := [30011; 20687; 47; 21205; 30011].

(** The first channel item has an empty [uploads] id. *)
Definition empty_uploads_api : Api := {|
  api_channels := fun _ => Ok [{| ci_uploads := Some [] |}];
  api_playlist := fun _ _ => Ok [];
  api_videos := fun _ => Ok [];
  api_post := fun _ => Ok tt
|}.

(** One recent playlist entry ["v1"]. *)
Definition recent_v1 : PlaylistItem :=
  {| pi_videoId := s_ "v1"; pi_videoPublishedAt := Some (s_ "2026-10-18T05:00:00Z") |}.

(** A description whose only keyword, ["agent"], comes after 180 characters. *)
Definition late_keyword_desc : str := repeat 97 180 ++ s_ " agent".

Definition late_keyword_meta : Meta := {|
  m_id := s_ "vid1";
  m_title := Some (s_ "x");
  m_channelTitle := Some (s_ "ch");
  m_description := Some late_keyword_desc;
  m_publishedAt := s_ "2026-10-18T05:00:00Z"
|}.

(** ["エージェント"], the label of ["agent"]. *)
Definition AGENT_TAG : str := [12456; 12540; 12472; 12455; 12531; 12488].

(** The first character of [s], if any, is not whitespace. *)
Definition head_ok (s : str) : bool :=
  match s with [] => true | c :: _ => negb (is_ws c) end.

(** No two adjacent whitespace characters. *)
Fixpoint no_ws_pair (s : str) : bool :=
  match s with
  | c :: ((d :: _) as t) => negb (is_ws c && is_ws d) && no_ws_pair t
  | _ => true
  end.

(** Normal form: no leading or trailing whitespace, no whitespace run of
    length two or more. *)
Definition is_normal (s : str) : bool := head_ok s && head_ok (rev s) && no_ws_pair s.

(** The output of [re.sub(r"\s+", " ", _)] started after a character that
    was whitespace ([prev = true]) or not: its whitespace is single spaces
    never following whitespace. *)
Fixpoint ws_clean (prev : bool) (s : str) : bool :=
  match s with
  | [] => true
  | c :: t => if is_ws c then negb prev && (c =? 32) && ws_clean true t else ws_clean false t
  end.

(** The fragments [bullets_from_description] scans, in scan order: lines
    split on line feeds (carriage returns removed), each stripped of
    bullet marks, empty lines skipped, then split on delimiter runs. *)
Definition line_fragments (line : str) : list str :=
  let l := strip_marks line in
  if truthy l then split_delims l else [].

Definition desc_fragments (desc : str) : list str :=
  concat (map line_fragments (split_on 10 (List.filter (fun c => negb (c =? 13)) desc))).

(** The description of scenario C of the spec. *)
Definition scenario_c_desc : str :=
  s_ "Intro." ++ [10] ++ s_ "Built with RAG and tool use." ++ [10] ++ s_ "Short." ++ [10].

(** Single-space collapsing with the space delayed until the next word:
    the state records whether a word was written ([CInWord]), a
    whitespace run follows one ([CPending]), or nothing was written yet
    ([CStart]).  It relates [normalize_text] and [" ".join(s.split())]. *)
Inductive CState := CStart | CInWord | CPending.

Fixpoint collapse_ws (st : CState) (s : str) : str :=
  match s with
  | [] => []
  | c :: t =>
      if is_ws c then
        match st with
        | CStart => collapse_ws CStart t
        | _ => collapse_ws CPending t
        end
      else
        match st with
        | CPending => 32 :: c :: collapse_ws CInWord t
        | _ => c :: collapse_ws CInWord t
        end
  end.

(** The last character, if any, is not whitespace. *)
Definition ends_ok (s : str) : bool := head_ok (rev s).

(* ================================================================== *)
(** * Proofs *)

(* ------------------------------------------------------------------ *)
(** ** The recency filter *)

Lemma recent_ids_filter cutoff items :
  recent_ids cutoff items = map pi_videoId (List.filter (keep_recent cutoff) items).
Proof.
  unfold recent_ids.
  match goal with
  | |- fold_left ?F _ _ = _ =>
      cut (forall acc, fold_left F items acc =
                   acc ++ map pi_videoId (List.filter (keep_recent cutoff) items))
  end.
  { intros H. rewrite H. reflexivity. }
  induction items as [|it items IH]; intros acc; simpl.
  - by rewrite app_nil_r.
  - destruct (pi_videoPublishedAt it) as [pub|] eqn:Hp.
    + replace (keep_recent cutoff it) with (truthy pub && str_geb pub cutoff)
        by (unfold keep_recent; rewrite Hp; reflexivity).
      destruct (truthy pub && str_geb pub cutoff); simpl.
      * rewrite IH, <- app_assoc. reflexivity.
      * apply IH.
    + replace (keep_recent cutoff it) with false
        by (unfold keep_recent; rewrite Hp; reflexivity).
      apply IH.
Qed.

Lemma keep_recent_nonempty_cutoff cutoff items :
  truthy cutoff = true ->
  map pi_videoId (List.filter (keep_recent cutoff) items) = spec_recent cutoff items.
Proof.
  intros Hc. unfold spec_recent. f_equal.
  apply List.filter_ext. intros it. unfold keep_recent.
  destruct (pi_videoPublishedAt it) as [[|c p]|]; try reflexivity.
  destruct cutoff; [discriminate|reflexivity].
Qed.

(** C1 (amended): [list_recent_video_ids] returns, in feed order, the ids
    of the entries whose timestamp is present, non-empty and [>=] the
    cutoff; for a non-empty cutoff this is exactly the spec's reading. *)
Theorem list_recent_video_ids_spec api cfg pid cutoff items log :
  api_playlist api pid (Z.min (MAX_PER_CHANNEL cfg) 50) = Ok items ->
  list_recent_video_ids api cfg pid cutoff log =
    (log ++ [EvPlaylist pid (Z.min (MAX_PER_CHANNEL cfg) 50)],
     Ok (map pi_videoId (List.filter (keep_recent cutoff) items))) /\
  (truthy cutoff = true ->
   map pi_videoId (List.filter (keep_recent cutoff) items) = spec_recent cutoff items).
Proof.
  intros H. split.
  - unfold list_recent_video_ids, M_bind, call, M_ret. rewrite H.
    by rewrite recent_ids_filter.
  - apply keep_recent_nonempty_cutoff.
Qed.

Lemma list_recent_video_ids_spec_witness :
  let items := [{| pi_videoId := s_ "v1"; pi_videoPublishedAt := Some (s_ "2026-10-18T05:00:00Z") |}] in
  list_recent_video_ids (sample_api items) sample_cfg (s_ "UU1") (s_ "2026-10-18T00:00:00Z") [] =
    ([EvPlaylist (s_ "UU1") 10], Ok [s_ "v1"]).
Proof.
  intros items.
  destruct (list_recent_video_ids_spec (sample_api items) sample_cfg (s_ "UU1")
              (s_ "2026-10-18T00:00:00Z") items [] eq_refl) as [H _].
  rewrite H. vm_compute. reflexivity.
Defined.

(** C1 counterexample: with the cutoff [""], an entry whose timestamp is
    present but empty satisfies [timestamp >= cutoff], yet is dropped. *)
Lemma recent_filter_drops_empty_timestamp :
  let items := [{| pi_videoId := s_ "v1"; pi_videoPublishedAt := Some [] |}] in
  snd (list_recent_video_ids (sample_api items) sample_cfg (s_ "UU1") [] []) = Ok [] /\
  spec_recent [] items = [s_ "v1"].
Proof. split; vm_compute; reflexivity. Qed.

(* ------------------------------------------------------------------ *)
(** ** Logs *)

Lemma posts_app l1 l2 : posts (l1 ++ l2) = posts l1 ++ posts l2.
Proof.
  induction l1 as [|e l1 IH]; [reflexivity|].
  destruct e; simpl; rewrite IH; reflexivity.
Qed.

Lemma video_requests_app l1 l2 :
  video_requests (l1 ++ l2) = video_requests l1 ++ video_requests l2.
Proof.
  induction l1 as [|e l1 IH]; [reflexivity|].
  destruct e; simpl; rewrite IH; reflexivity.
Qed.

(** The loop over the channels delivers nothing to Slack. *)
Lemma collect_ids_no_posts api cfg cutoff chs acc log :
  posts (fst (collect_ids api cfg cutoff chs acc log)) = posts log.
Proof.
  revert acc log. induction chs as [|ch chs IH]; intros acc log; [reflexivity|].
  cbn [collect_ids]. unfold get_uploads_pid, list_recent_video_ids, M_bind, call, M_ret, M_raise.
  destruct (api_channels api ch) as [items|e]; cbn;
    [|rewrite posts_app; simpl; by rewrite app_nil_r].
  destruct items as [|it items]; cbn.
  { rewrite IH, posts_app. simpl. by rewrite app_nil_r. }
  destruct (ci_uploads it) as [u|]; cbn;
    [|rewrite posts_app; simpl; by rewrite app_nil_r].
  destruct (truthy u); cbn;
    [|rewrite IH, posts_app; simpl; by rewrite app_nil_r].
  destruct (api_playlist api u _); cbn;
    [rewrite IH|]; rewrite !posts_app; simpl; by rewrite !app_nil_r.
Qed.

(* ------------------------------------------------------------------ *)
(** ** Channels without an uploads playlist *)

(** C9: a channel whose [channels.list] answer has no items makes
    [get_uploads_pid] return [None]; the loop then goes on with the next
    channels, with [all_ids] unchanged and no error. *)
Theorem collect_skips_channel_without_uploads api cfg cutoff ch rest acc log :
  api_channels api ch = Ok [] ->
  get_uploads_pid api ch log = (log ++ [EvChannels ch], Ok None) /\
  collect_ids api cfg cutoff (ch :: rest) acc log =
    collect_ids api cfg cutoff rest acc (log ++ [EvChannels ch]).
Proof.
  intros H. cbn [collect_ids].
  unfold get_uploads_pid, M_bind, call, M_ret. rewrite H. split; reflexivity.
Qed.

Lemma collect_skips_channel_without_uploads_witness :
  get_uploads_pid (sample_api []) (s_ "UC1") [] = ([EvChannels (s_ "UC1")], Ok None) /\
  collect_ids (sample_api []) sample_cfg (s_ "2026-10-18T00:00:00Z") [s_ "UC1"; s_ "UC2"] ∅ [] =
    collect_ids (sample_api []) sample_cfg (s_ "2026-10-18T00:00:00Z") [s_ "UC2"] ∅
      [EvChannels (s_ "UC1")].
Proof.
  exact (collect_skips_channel_without_uploads (sample_api []) sample_cfg
           (s_ "2026-10-18T00:00:00Z") (s_ "UC1") [s_ "UC2"] ∅ [] eq_refl).
Defined.

(* ------------------------------------------------------------------ *)
(** ** No new items *)

(** C2 counterexample: yt_news.py delivers nothing when no channel has a
    new video. *)
Lemma news_silent_when_no_items :
  main_news (sample_api []) sample_cfg sample_rt [] = ([EvChannels (s_ "UC1")], Ok tt) /\
  posts (fst (main_news (sample_api []) sample_cfg sample_rt [])) = [].
Proof. split; vm_compute; reflexivity. Qed.

(** C2 (amended): when [all_ids] ends up empty, yt_minutes.py delivers
    exactly one message, the "no new items" text with the JST time and
    [HOURS_WINDOW], and nothing else; yt_news.py delivers nothing. *)
Theorem no_new_items_runs api cfg rt log0 log1 :
  collect_ids api cfg (published_after_z rt) (CHANNEL_IDS cfg) ∅ log0 = (log1, Ok ∅) ->
  fst (main_minutes api cfg rt log0) = log1 ++ [EvPost (MsgText (no_new_items_text cfg rt))] /\
  posts (fst (main_minutes api cfg rt log0)) = posts log0 ++ [MsgText (no_new_items_text cfg rt)] /\
  no_new_items_text cfg rt =
    lit_no_new ++ now_jst_minute rt ++ lit_past ++ py_str_int (HOURS_WINDOW cfg) ++ lit_h_close /\
  main_news api cfg rt log0 = (log1, Ok tt) /\
  posts (fst (main_news api cfg rt log0)) = posts log0.
Proof.
  intros H.
  assert (Hp : posts log1 = posts log0).
  { pose proof (collect_ids_no_posts api cfg (published_after_z rt) (CHANNEL_IDS cfg) ∅ log0) as P.
    rewrite H in P. exact P. }
  assert (Hm : fst (main_minutes api cfg rt log0) =
               log1 ++ [EvPost (MsgText (no_new_items_text cfg rt))]).
  { unfold main_minutes, M_bind. rewrite H.
    rewrite bool_decide_eq_true_2 by reflexivity. reflexivity. }
  assert (Hn : main_news api cfg rt log0 = (log1, Ok tt)).
  { unfold main_news, M_bind. rewrite H.
    rewrite bool_decide_eq_true_2 by reflexivity. reflexivity. }
  split; [exact Hm|]. split.
  { rewrite Hm, posts_app, Hp. reflexivity. }
  split; [reflexivity|]. split; [exact Hn|].
  rewrite Hn. exact Hp.
Qed.

Lemma no_new_items_runs_witness :
  fst (main_minutes (sample_api []) sample_cfg sample_rt []) =
    [EvChannels (s_ "UC1"); EvPost (MsgText (no_new_items_text sample_cfg sample_rt))].
Proof.
  destruct (no_new_items_runs (sample_api []) sample_cfg sample_rt [] [EvChannels (s_ "UC1")])
    as [H _].
  - vm_compute. reflexivity.
  - exact H.
Defined.

(* ------------------------------------------------------------------ *)
(** ** Batches of [videos.list] *)

Lemma chunked_go_50 {A} fuel (l : list A) :
  (length l < fuel)%nat ->
  concat (chunked_go fuel 50 l) = l /\
  Forall (fun c => c <> [] /\ (length c <= 50)%nat) (chunked_go fuel 50 l) /\
  length (chunked_go fuel 50 l) = ((length l + 49) / 50)%nat.
Proof.
  revert l. induction fuel as [|fuel IH]; intros l Hl; [lia|].
  destruct l as [|x l']; [split; [|split]; simpl; auto|].
  cbn [chunked_go]. change (take 50 (x :: l')) with (x :: take 49 l').
  change (drop 50 (x :: l')) with (drop 49 l').
  destruct (IH (drop 49 l')) as (Hc & Hf & Hn).
  { rewrite length_drop. simpl in Hl. lia. }
  split; [|split].
  - simpl. rewrite Hc. f_equal. apply take_drop.
  - constructor; [|exact Hf]. split; [discriminate|].
    simpl. rewrite length_take. lia.
  - cbn [length]. rewrite Hn, length_drop.
    destruct (Nat.le_gt_cases (length l') 49) as [Hs|Hs].
    + replace (length l' - 49 + 49)%nat with 49%nat by lia.
      rewrite (Nat.div_small 49 50) by lia.
      apply Nat.div_unique with (r := length l'); lia.
    + replace (length l' - 49 + 49)%nat with (length l') by lia.
      replace (S (length l') + 49)%nat with (length l' + 1 * 50)%nat by lia.
      rewrite Nat.div_add by lia. lia.
Qed.

Lemma chunked_50 {A} (l : list A) :
  concat (chunked l 50) = l /\
  Forall (fun c => c <> [] /\ (length c <= 50)%nat) (chunked l 50) /\
  length (chunked l 50) = ((length l + 49) / 50)%nat.
Proof. apply chunked_go_50. lia. Qed.

Lemma fetch_chunks_ok api chunks items log :
  (forall c, exists r, api_videos api c = Ok r) ->
  exists metas, fetch_chunks api chunks items log = (log ++ map EvVideos chunks, Ok metas).
Proof.
  intros Hok. revert items log.
  induction chunks as [|c chunks IH]; intros items log.
  - exists items. simpl. by rewrite app_nil_r.
  - destruct (Hok c) as [r Hr]. cbn [fetch_chunks].
    unfold M_bind, call. rewrite Hr.
    destruct (IH (items ++ r) (log ++ [EvVideos c])) as [metas Hm].
    exists metas. rewrite Hm. simpl. by rewrite <- app_assoc.
Qed.

Lemma video_requests_map_EvVideos chunks : video_requests (map EvVideos chunks) = chunks.
Proof. induction chunks as [|c chunks IH]; simpl; [reflexivity|]. by rewrite IH. Qed.

(** C3 (amended): when every [videos.list] call succeeds,
    [fetch_videos_meta] makes one call per batch of [chunked(ids, 50)]:
    ceil(N/50) non-empty batches of at most 50 ids, whose concatenation is
    the input; for a duplicate-free input (as [main] passes, the elements
    of a set) no id is requested twice. *)
Theorem fetch_videos_meta_batches api ids log :
  (forall c, exists r, api_videos api c = Ok r) ->
  video_requests (fst (fetch_videos_meta api ids log)) = video_requests log ++ chunked ids 50 /\
  length (chunked ids 50) = ((length ids + 49) / 50)%nat /\
  Forall (fun c => c <> [] /\ (length c <= 50)%nat) (chunked ids 50) /\
  concat (chunked ids 50) = ids /\
  (NoDup ids -> NoDup (concat (chunked ids 50))).
Proof.
  intros Hok. destruct (chunked_50 ids) as (Hc & Hf & Hn).
  split; [|split; [exact Hn|split; [exact Hf|split; [exact Hc|]]]].
  - unfold fetch_videos_meta.
    destruct (fetch_chunks_ok api (chunked ids 50) [] log Hok) as [metas Hm].
    rewrite Hm. simpl. by rewrite video_requests_app, video_requests_map_EvVideos.
  - by rewrite Hc.
Qed.

Lemma fetch_videos_meta_batches_witness :
  video_requests (fst (fetch_videos_meta (sample_api []) (map (fun n => [Z.of_nat n]) (seq 0 120)) [])) =
    chunked (map (fun n => [Z.of_nat n]) (seq 0 120)) 50 /\
  map length (chunked (map (fun n => [Z.of_nat n]) (seq 0 120)) 50) = [50; 50; 20]%nat.
Proof.
  destruct (fetch_videos_meta_batches (sample_api []) (map (fun n => [Z.of_nat n]) (seq 0 120)) [])
    as [H _].
  - intros c. exists []. reflexivity.
  - split; [exact H|]. vm_compute. reflexivity.
Defined.

(** C3 counterexample: with a repeated id the batches overlap, and the id
    is requested 51 times. *)
Lemma batches_overlap_on_repeated_id :
  video_requests (fst (fetch_videos_meta (sample_api []) (repeat (s_ "a") 51) [])) =
    [repeat (s_ "a") 50; [s_ "a"]] /\
  ~ NoDup (concat (video_requests (fst (fetch_videos_meta (sample_api []) (repeat (s_ "a") 51) [])))).
Proof.
  assert (H : video_requests (fst (fetch_videos_meta (sample_api []) (repeat (s_ "a") 51) [])) =
              [repeat (s_ "a") 50; [s_ "a"]]) by (vm_compute; reflexivity).
  split; [exact H|]. rewrite H. simpl. intros Hd.
  apply NoDup_cons in Hd as [Hn _]. apply Hn. simpl. left.
Qed.

(* ------------------------------------------------------------------ *)
(** ** Tags *)

Lemma filter_nil_forallb {A} (p : A -> bool) (l : list A) :
  List.filter p l = [] <-> forallb (fun x => negb (p x)) l = true.
Proof.
  induction l as [|x l IH]; simpl; [tauto|].
  destruct (p x); simpl; [split; [discriminate|discriminate]|exact IH].
Qed.

Lemma Forall_map_snd_filter {A B} (P : B -> Prop) (p : A * B -> bool) (l : list (A * B)) :
  Forall (fun kv => P kv.2) l -> Forall P (map snd (List.filter p l)).
Proof.
  induction 1 as [|kv l Hkv Hl IH]; simpl; [constructor|].
  destruct (p kv); simpl; [constructor|]; assumption.
Qed.

Lemma keyword_labels_not_general : Forall (fun kv => kv.2 <> GENERAL_TAG) KEYWORDS.
Proof. repeat constructor; discriminate. Qed.

(** C6: [make_tags] returns between 1 and 5 tags, and returns the single
    sentinel tag exactly when no keyword occurs in the lower-cased text. *)
Theorem make_tags_bounds lower title desc :
  (1 <= length (make_tags lower title desc) <= 5)%nat /\
  (make_tags lower title desc = [GENERAL_TAG] <->
   forallb (fun kv => negb (str_contains kv.1 (lower (title ++ [10] ++ desc)))) KEYWORDS = true).
Proof.
  unfold make_tags.
  set (text := lower (title ++ [10] ++ desc)).
  set (F := List.filter (fun kv => str_contains kv.1 text) KEYWORDS).
  pose proof (Forall_take (fun t => t <> GENERAL_TAG) 5 _
                (Forall_map_snd_filter (fun t => t <> GENERAL_TAG)
                   (fun kv => str_contains kv.1 text) _ keyword_labels_not_general)) as Hne.
  fold F in Hne.
  destruct (take 5 (map snd F)) as [|t ts] eqn:Ht.
  - split; [simpl; lia|]. split; [intros _|reflexivity].
    apply filter_nil_forallb. fold F.
    apply take_nil_inv in Ht as [Ht|Ht]; [discriminate|].
    destruct F; [reflexivity|discriminate].
  - split.
    + split; [simpl; lia|]. rewrite <- Ht, length_take. lia.
    + split.
      * intros Heq. injection Heq as -> _. inversion Hne; contradiction.
      * intros Hall. apply filter_nil_forallb in Hall. fold F in Hall.
        rewrite Hall in Ht. discriminate.
Qed.

(** C4 failing input: in yt_news.py the tags of an item are computed from
    [trim(description)], cut to 180 characters, so ["agent"] at position
    181 gives no tag; yt_minutes.py, on the same item, tags it. *)
Theorem news_tags_miss_late_keyword :
  nth_error (news_item_blocks sample_rt late_keyword_meta) 1 =
    Some (BContext [s_ ":bust_in_silhouette: ch";
                    s_ ":calendar: 2026-10-18T05:00:00Z JST";
                    s_ ":label: " ++ GENERAL_TAG]) /\
  make_tags lower_ascii (s_ "x") late_keyword_desc = [AGENT_TAG] /\
  nth_error (minutes_item_lines sample_rt 1 late_keyword_meta) 6 =
    Some (lit_tag ++ [35] ++ AGENT_TAG).
Proof. split; [|split]; vm_compute; reflexivity. Qed.

(* ------------------------------------------------------------------ *)
(** ** Lexicographic order on strings *)

Lemma str_ltb_irrefl a : str_ltb a a = false.
Proof.
  induction a as [|x a IH]; simpl; [reflexivity|].
  rewrite Z.ltb_irrefl. exact IH.
Qed.

Lemma str_ltb_trans a b c :
  str_ltb a b = true -> str_ltb b c = true -> str_ltb a c = true.
Proof.
  revert b c. induction a as [|x a IH]; intros [|y b] [|z c]; simpl; intros H1 H2;
    try discriminate; try reflexivity.
  destruct (Z.ltb_spec x y), (Z.ltb_spec y x), (Z.ltb_spec y z), (Z.ltb_spec z y),
    (Z.ltb_spec x z), (Z.ltb_spec z x); try lia; try discriminate; try reflexivity.
  eauto.
Qed.

Lemma str_ltb_trichotomy a b :
  str_ltb a b = true \/ a = b \/ str_ltb b a = true.
Proof.
  revert b. induction a as [|x a IH]; intros [|y b]; simpl; auto.
  destruct (Z.ltb_spec x y) as [Hxy|Hxy], (Z.ltb_spec y x) as [Hyx|Hyx]; auto; try lia.
  assert (x = y) by lia. subst y.
  destruct (IH b) as [Hab|[Hab|Hab]]; auto. subst. auto.
Qed.

Lemma str_ltb_asym a b : str_ltb a b = true -> str_ltb b a = false.
Proof.
  intros H. destruct (str_ltb b a) eqn:E; [|reflexivity].
  pose proof (str_ltb_trans _ _ _ H E) as H'. by rewrite str_ltb_irrefl in H'.
Qed.

Lemma str_le_trans a b c :
  str_ltb b a = false -> str_ltb c b = false -> str_ltb c a = false.
Proof.
  intros H1 H2. destruct (str_ltb c a) eqn:E; [|reflexivity].
  destruct (str_ltb_trichotomy a b) as [H|[H|H]].
  - by rewrite (str_ltb_trans _ _ _ E H) in H2.
  - subst. by rewrite E in H2.
  - by rewrite H in H1.
Qed.

Lemma str_lt_le_trans a b c :
  str_ltb a b = true -> str_ltb c b = false -> str_ltb a c = true.
Proof.
  intros H1 H2. destruct (str_ltb_trichotomy a c) as [H|[H|H]]; [exact H| |].
  - subst. by rewrite H1 in H2.
  - by rewrite (str_ltb_trans _ _ _ H H1) in H2.
Qed.

(* ------------------------------------------------------------------ *)
(** ** The sort by [publishedAt] *)

Definition pub_le (a b : Meta) : Prop := str_ltb (m_publishedAt b) (m_publishedAt a) = false.

Definition pub_is (k : str) (m : Meta) : bool := str_eqb (m_publishedAt m) k.

Lemma insert_by_pub_perm x l : insert_by_pub x l ≡ₚ x :: l.
Proof.
  induction l as [|y l IH]; simpl; [reflexivity|].
  destruct (str_ltb _ _); [reflexivity|].
  rewrite IH. constructor.
Qed.

Lemma insert_by_pub_Forall (P : Meta -> Prop) x l :
  P x -> Forall P l -> Forall P (insert_by_pub x l).
Proof.
  intros Hx Hl. induction Hl as [|y l Hy Hl IH]; simpl; [constructor; auto|].
  destruct (str_ltb _ _); constructor; auto.
Qed.

Lemma insert_by_pub_sorted x l :
  StronglySorted pub_le l -> StronglySorted pub_le (insert_by_pub x l).
Proof.
  induction 1 as [|y l Hl IH Hy]; simpl; [repeat constructor|].
  destruct (str_ltb (m_publishedAt x) (m_publishedAt y)) eqn:E.
  - constructor; [constructor; assumption|].
    assert (Hxy : pub_le x y) by (apply str_ltb_asym, E).
    constructor; [exact Hxy|].
    eapply Forall_impl; [exact Hy|]. intros z Hz. unfold pub_le in *.
    eapply str_le_trans; eassumption.
  - constructor; [exact IH|]. apply insert_by_pub_Forall; [exact E|exact Hy].
Qed.

(** Inserting [x] into a sorted list keeps the other elements with the
    key of [x] before it. *)
Lemma insert_by_pub_filter k x l :
  StronglySorted pub_le l ->
  List.filter (pub_is k) (insert_by_pub x l) =
  List.filter (pub_is k) l ++ (if pub_is k x then [x] else []).
Proof.
  induction 1 as [|y l Hl IH Hy]; simpl; [destruct (pub_is k x); reflexivity|].
  destruct (str_ltb (m_publishedAt x) (m_publishedAt y)) eqn:E.
  - assert (Hnone : List.filter (pub_is k) (y :: l) = [] \/ pub_is k x = false).
    { destruct (pub_is k x) eqn:Ex; [left|right; reflexivity].
      unfold pub_is, str_eqb in Ex. apply bool_decide_eq_true_1 in Ex. subst k.
      apply filter_nil_forallb. simpl. apply andb_true_intro. split.
      - unfold pub_is, str_eqb. apply negb_true_iff, bool_decide_eq_false_2.
        intros Heq. rewrite Heq, str_ltb_irrefl in E. discriminate.
      - apply forallb_forall. intros z Hz.
        rewrite List.Forall_forall in Hy. specialize (Hy z Hz).
        pose proof (str_lt_le_trans _ _ _ E Hy) as Hxz.
        unfold pub_is, str_eqb. apply negb_true_iff, bool_decide_eq_false_2.
        intros Heq. rewrite Heq, str_ltb_irrefl in Hxz. discriminate. }
    destruct Hnone as [Hnone|Hnone].
    + simpl in Hnone |- *. rewrite Hnone.
      destruct (pub_is k x); reflexivity.
    + simpl. rewrite Hnone. by rewrite app_nil_r.
  - simpl. rewrite IH. destruct (pub_is k y); reflexivity.
Qed.

Lemma sort_by_pub_fold_spec l acc :
  StronglySorted pub_le acc ->
  fold_left (fun acc x => insert_by_pub x acc) l acc ≡ₚ acc ++ l /\
  StronglySorted pub_le (fold_left (fun acc x => insert_by_pub x acc) l acc) /\
  (forall k, List.filter (pub_is k) (fold_left (fun acc x => insert_by_pub x acc) l acc) =
             List.filter (pub_is k) acc ++ List.filter (pub_is k) l).
Proof.
  revert acc. induction l as [|x l IH]; intros acc Hacc; simpl.
  - split; [by rewrite app_nil_r|]. split; [exact Hacc|].
    intros k. by rewrite app_nil_r.
  - destruct (IH (insert_by_pub x acc) (insert_by_pub_sorted x acc Hacc)) as (Hp & Hs & Hf).
    split; [|split; [exact Hs|]].
    + rewrite Hp, insert_by_pub_perm. simpl. by rewrite Permutation_middle.
    + intros k. rewrite Hf, insert_by_pub_filter by exact Hacc.
      rewrite <- app_assoc. f_equal. simpl. destruct (pub_is k x); reflexivity.
Qed.

Lemma StronglySorted_snoc {A} (S : A -> A -> Prop) l x :
  StronglySorted S l -> Forall (fun y => S y x) l -> StronglySorted S (l ++ [x]).
Proof.
  induction 1 as [|y l Hl IH Hy]; intros Hf; simpl; [repeat constructor|].
  inversion Hf as [|? ? Hyx Hf']; subst.
  constructor; [apply IH, Hf'|]. apply Forall_app. split; [exact Hy|].
  constructor; [exact Hyx|constructor].
Qed.

Lemma StronglySorted_rev {A} (S : A -> A -> Prop) l :
  StronglySorted S l -> StronglySorted (fun a b => S b a) (rev l).
Proof.
  induction 1 as [|y l Hl IH Hy]; simpl; [constructor|].
  apply StronglySorted_snoc; [exact IH|].
  apply List.Forall_forall. intros z Hz. apply in_rev in Hz.
  exact (proj1 (List.Forall_forall _ _) Hy z Hz).
Qed.

Lemma StronglySorted_impl {A} (S T : A -> A -> Prop) l :
  (forall a b, S a b -> T a b) -> StronglySorted S l -> StronglySorted T l.
Proof.
  intros HST. induction 1 as [|y l Hl IH Hy]; constructor; [exact IH|].
  eapply Forall_impl; [exact Hy|]. intros z; apply HST.
Qed.

(** C7: [metas.sort(key=publishedAt, reverse=True)] is a permutation of
    its input, in non-increasing order of [publishedAt], and the items of
    any one [publishedAt] keep their order from the fetch. *)
Theorem sort_by_pub_desc_spec (metas : list Meta) :
  sort_by_pub_desc metas ≡ₚ metas /\
  StronglySorted (fun a b => str_geb (m_publishedAt a) (m_publishedAt b) = true)
    (sort_by_pub_desc metas) /\
  (forall k, List.filter (pub_is k) (sort_by_pub_desc metas) = List.filter (pub_is k) metas).
Proof.
  destruct (sort_by_pub_fold_spec (rev metas) [] (SSorted_nil _)) as (Hp & Hs & Hf).
  unfold sort_by_pub_desc, sort_by_pub. split; [|split].
  - rewrite <- Permutation_rev, Hp. simpl. symmetry. apply Permutation_rev.
  - eapply StronglySorted_impl; [|exact (StronglySorted_rev _ _ Hs)].
    intros a b H. unfold pub_le, str_geb in *. by rewrite H.
  - intros k. rewrite List.filter_rev, Hf. simpl. by rewrite List.filter_rev, rev_involutive.
Qed.

(* ------------------------------------------------------------------ *)
(** ** The set [all_ids] *)

Lemma fold_set_update (ls : list (list str)) (acc : gset str) :
  fold_left set_update ls acc = acc ∪ list_to_set (concat ls).
Proof.
  revert acc. induction ls as [|ids ls IH]; intros acc; simpl.
  - set_solver.
  - rewrite IH. unfold set_update. rewrite list_to_set_app_L. set_solver.
Qed.

Lemma size_list_to_set_length (l : list str) :
  (size (list_to_set l : gset str) <= length l)%nat /\
  (size (list_to_set l : gset str) = length l <-> NoDup l).
Proof.
  induction l as [|x l [IHle IHeq]].
  - change (list_to_set [] : gset str) with (∅ : gset str).
    rewrite size_empty. split; [simpl; lia|]. split; [constructor|reflexivity].
  - change (list_to_set (x :: l) : gset str) with ({[x]} ∪ list_to_set l : gset str).
    cbn [length].
    destruct (decide (x ∈ (list_to_set l : gset str))) as [Hin|Hnin].
    + replace ({[x]} ∪ list_to_set l : gset str) with (list_to_set l : gset str) by set_solver.
      split; [lia|]. split; [lia|].
      intros Hd. apply NoDup_cons in Hd as [Hn _].
      apply elem_of_list_to_set in Hin. contradiction.
    + rewrite size_union by set_solver. rewrite size_singleton.
      split; [lia|]. rewrite NoDup_cons, <- IHeq.
      rewrite elem_of_list_to_set in Hnin. split; [|intros [_ H]; lia].
      intros H. split; [exact Hnin|lia].
Qed.

Lemma length_concat_sum (ls : list (list str)) : length (concat ls) = sum_list_with length ls.
Proof. induction ls as [|l ls IH]; simpl; [reflexivity|]. by rewrite length_app, IH. Qed.

(** C8: [all_ids.update(ids)] over the lists of all channels gives a set
    (no id twice) of exactly the ids that occur in some list; its size is
    at most the total length, with equality iff all the ids are distinct. *)
Theorem dedup_set_spec (ls : list (list str)) :
  NoDup (elements (fold_left set_update ls ∅)) /\
  (forall x, x ∈ fold_left set_update ls ∅ <-> exists ids, In ids ls /\ In x ids) /\
  (size (fold_left set_update ls ∅) <= sum_list_with length ls)%nat /\
  (size (fold_left set_update ls ∅) = sum_list_with length ls <-> NoDup (concat ls)).
Proof.
  rewrite fold_set_update, (left_id_L ∅ union), <- length_concat_sum.
  destruct (size_list_to_set_length (concat ls)) as [Hle Heq].
  split; [apply NoDup_elements|]. split; [|split; [exact Hle|exact Heq]].
  intros x. rewrite elem_of_list_to_set, list_elem_of_In, in_concat.
  split; intros [ids [H1 H2]]; exists ids; auto.
Qed.

(* ------------------------------------------------------------------ *)
(** ** normalize_text *)

Lemma lstrip_ws_id s : head_ok s = true -> lstrip_ws s = s.
Proof. destruct s as [|c s]; simpl; [reflexivity|]. by destruct (is_ws c). Qed.

Lemma lstrip_ws_head s : head_ok (lstrip_ws s) = true.
Proof.
  induction s as [|c s IH]; simpl; [reflexivity|].
  destruct (is_ws c) eqn:E; [exact IH|]. simpl. by rewrite E.
Qed.

Lemma lstrip_ws_suffix s : exists p, s = p ++ lstrip_ws s.
Proof.
  induction s as [|c s [p Hp]]; simpl; [by exists []|].
  destruct (is_ws c); [exists (c :: p); simpl; by rewrite <- Hp|by exists []].
Qed.

Lemma head_ok_app x y : x <> [] -> head_ok (x ++ y) = head_ok x.
Proof. destruct x; [contradiction|reflexivity]. Qed.

Lemma strip_ws_ends s : head_ok (strip_ws s) = true /\ head_ok (rev (strip_ws s)) = true.
Proof.
  unfold strip_ws. rewrite rev_involutive. split; [|apply lstrip_ws_head].
  set (u := lstrip_ws s). assert (Hu : head_ok u = true) by apply lstrip_ws_head.
  destruct (lstrip_ws_suffix (rev u)) as [p Hp].
  set (w := lstrip_ws (rev u)) in *.
  destruct (rev w) as [|c r] eqn:Ew; [reflexivity|].
  assert (Hu' : u = rev w ++ rev p).
  { rewrite <- (rev_involutive u), Hp, rev_app_distr. reflexivity. }
  rewrite Ew in Hu'. rewrite Hu' in Hu. simpl in Hu. simpl. exact Hu.
Qed.

Lemma strip_ws_id s : head_ok s = true -> head_ok (rev s) = true -> strip_ws s = s.
Proof.
  intros H1 H2. unfold strip_ws.
  rewrite (lstrip_ws_id s H1), (lstrip_ws_id (rev s) H2). apply rev_involutive.
Qed.

Lemma sub_ws_runs_clean b s : ws_clean b (sub_ws_runs b s) = true.
Proof.
  revert b. induction s as [|c s IH]; intros b; simpl; [reflexivity|].
  destruct (is_ws c) eqn:E.
  - destruct b; [apply IH|]. simpl. apply IH.
  - simpl. rewrite E. apply IH.
Qed.

Lemma sub_ws_runs_id b s : ws_clean b s = true -> sub_ws_runs b s = s.
Proof.
  revert b. induction s as [|c s IH]; intros b H; simpl in *; [reflexivity|].
  destruct (is_ws c).
  - destruct b; [discriminate|]. simpl in H.
    apply andb_prop in H as [Hc Hs]. apply Z.eqb_eq in Hc. subst c.
    f_equal. by apply IH.
  - f_equal. by apply IH.
Qed.

Lemma sub_ws_runs_head s : head_ok s = true -> head_ok (sub_ws_runs false s) = true.
Proof.
  destruct s as [|c s]; simpl; [reflexivity|].
  intros H. destruct (is_ws c) eqn:E; [discriminate|]. simpl. by rewrite E.
Qed.

Lemma sub_ws_runs_snoc b x c :
  is_ws c = false -> sub_ws_runs b (x ++ [c]) = sub_ws_runs b x ++ [c].
Proof.
  intros Hc. revert b. induction x as [|d x IH]; intros b; simpl.
  - by rewrite Hc.
  - destruct (is_ws d); [destruct b|]; simpl; by rewrite IH.
Qed.

Lemma sub_ws_runs_last s : head_ok (rev s) = true -> head_ok (rev (sub_ws_runs false s)) = true.
Proof.
  destruct (rev s) as [|c r] eqn:E.
  - apply (f_equal (@rev Z)) in E. rewrite rev_involutive in E. subst s. reflexivity.
  - intros Hc. simpl in Hc. apply negb_true_iff in Hc.
    apply (f_equal (@rev Z)) in E. rewrite rev_involutive in E. simpl in E. subst s.
    rewrite sub_ws_runs_snoc by exact Hc. rewrite rev_app_distr. simpl. by rewrite Hc.
Qed.

Lemma ws_clean_no_ws_pair b s : ws_clean b s = true -> no_ws_pair s = true.
Proof.
  revert b. induction s as [|c s IH]; intros b H; [reflexivity|].
  simpl in H. destruct s as [|d s]; [reflexivity|].
  change (no_ws_pair (c :: d :: s)) with (negb (is_ws c && is_ws d) && no_ws_pair (d :: s)).
  destruct (is_ws c) eqn:Ec.
  - apply andb_prop in H as [_ H]. pose proof H as H'. simpl in H'.
    destruct (is_ws d); [simpl in H'; discriminate|]. simpl. eapply IH; exact H.
  - simpl. eapply IH; exact H.
Qed.

Lemma normalize_text_normal s :
  head_ok (normalize_text s) = true /\ head_ok (rev (normalize_text s)) = true /\
  ws_clean false (normalize_text s) = true.
Proof.
  destruct (strip_ws_ends s) as [H1 H2]. unfold normalize_text.
  split; [by apply sub_ws_runs_head|]. split; [by apply sub_ws_runs_last|].
  apply sub_ws_runs_clean.
Qed.

Lemma normalize_text_idem s : normalize_text (normalize_text s) = normalize_text s.
Proof.
  destruct (normalize_text_normal s) as (H1 & H2 & H3).
  unfold normalize_text at 1. rewrite strip_ws_id by assumption.
  by apply sub_ws_runs_id.
Qed.

Lemma normalize_text_is_normal s : is_normal (normalize_text s) = true.
Proof.
  destruct (normalize_text_normal s) as (H1 & H2 & H3). unfold is_normal.
  rewrite H1, H2. simpl. eapply ws_clean_no_ws_pair; exact H3.
Qed.

(* ------------------------------------------------------------------ *)
(** ** bullets_from_description *)

Lemma add_fragments_eq parts frs :
  add_fragments parts frs =
  parts ++ List.filter (fun f => (8 <=? length f)%nat) (map normalize_text frs).
Proof.
  unfold add_fragments. revert parts.
  induction frs as [|f frs IH]; intros parts; cbn [fold_left List.filter map];
    [by rewrite app_nil_r|].
  destruct (8 <=? length (normalize_text f))%nat; rewrite IH; [by rewrite <- app_assoc|reflexivity].
Qed.

Lemma add_line_eq parts line :
  add_line parts line =
  parts ++ List.filter (fun f => (8 <=? length f)%nat) (map normalize_text (line_fragments line)).
Proof.
  unfold add_line, line_fragments. destruct (truthy (strip_marks line)); simpl.
  - apply add_fragments_eq.
  - by rewrite app_nil_r.
Qed.

Lemma fold_add_line_eq lines parts :
  fold_left add_line lines parts =
  parts ++ List.filter (fun f => (8 <=? length f)%nat)
                       (map normalize_text (concat (map line_fragments lines))).
Proof.
  revert parts. induction lines as [|line lines IH]; intros parts; simpl; [by rewrite app_nil_r|].
  rewrite IH, add_line_eq, map_app, List.filter_app. by rewrite app_assoc.
Qed.

Lemma bullets_from_description_eq desc max_items :
  bullets_from_description desc max_items =
  take max_items (List.filter (fun f => (8 <=? length f)%nat)
                              (map normalize_text (desc_fragments desc))).
Proof.
  unfold bullets_from_description, desc_fragments.
  destruct desc as [|c desc]; [simpl; by rewrite take_nil|]. simpl negb. cbv iota.
  by rewrite fold_add_line_eq.
Qed.

Lemma Forall_filter_normalized (P : str -> Prop) frs :
  (forall g, (8 <= length (normalize_text g))%nat -> P (normalize_text g)) ->
  Forall P (List.filter (fun f => (8 <=? length f)%nat) (map normalize_text frs)).
Proof.
  intros HP. induction frs as [|g frs IH]; cbn [List.filter map]; [constructor|].
  destruct (8 <=? length (normalize_text g))%nat eqn:E; [|exact IH].
  constructor; [apply HP; apply Nat.leb_le, E|exact IH].
Qed.

Lemma bullets_Forall (P : str -> Prop) desc max_items :
  (forall g, (8 <= length (normalize_text g))%nat -> P (normalize_text g)) ->
  Forall P (bullets_from_description desc max_items).
Proof.
  intros HP. rewrite bullets_from_description_eq.
  apply Forall_take, Forall_filter_normalized, HP.
Qed.

(** C5: [bullets_from_description(desc, 3)] returns at most 3 fragments,
    each normalized and at least 8 characters long; they are the first 3
    fragments that qualify, in scan order; an empty description gives no
    bullet, and the description of scenario C gives one. *)
Theorem bullets_from_description_spec (desc : str) :
  (length (bullets_from_description desc 3) <= 3)%nat /\
  Forall (fun f => (8 <= length f)%nat /\ normalize_text f = f) (bullets_from_description desc 3) /\
  bullets_from_description desc 3 =
    take 3 (List.filter (fun f => (8 <=? length f)%nat) (map normalize_text (desc_fragments desc))) /\
  bullets_from_description [] 3 = [] /\
  bullets_from_description scenario_c_desc 3 = [s_ "Built with RAG and tool use"].
Proof.
  split; [|split; [|split; [|split]]].
  - rewrite bullets_from_description_eq, length_take. lia.
  - apply bullets_Forall. intros g Hg. split; [exact Hg|apply normalize_text_idem].
  - apply bullets_from_description_eq.
  - reflexivity.
  - vm_compute. reflexivity.
Qed.

(** C10: [normalize_text] is idempotent, and every bullet is in normal
    form (no leading or trailing whitespace, no two whitespace in a row). *)
Theorem normalize_text_idempotent (s desc : str) (max_items : nat) :
  normalize_text (normalize_text s) = normalize_text s /\
  Forall (fun f => is_normal f = true) (bullets_from_description desc max_items).
Proof.
  split; [apply normalize_text_idem|].
  apply bullets_Forall. intros g _. apply normalize_text_is_normal.
Qed.

(* ------------------------------------------------------------------ *)
(** ** trim and normalize_text *)

Lemma split_ws_acc_nonempty cur s : Forall (fun w => w <> []) (split_ws_acc cur s).
Proof.
  revert cur. induction s as [|c t IH]; intros cur; simpl.
  - destruct cur as [|d cur]; repeat constructor.
    intros H. apply (f_equal (@length Z)) in H. rewrite length_rev in H. discriminate.
  - destruct (is_ws c); [|apply IH].
    destruct cur as [|d cur]; [apply IH|]. constructor; [|apply IH].
    intros H. apply (f_equal (@length Z)) in H. rewrite length_rev in H. discriminate.
Qed.

Lemma split_ws_acc_collapse s :
  join_with [32] (split_ws_acc [] s) = collapse_ws CStart s /\
  (forall cur, cur <> [] -> join_with [32] (split_ws_acc cur s) = rev cur ++ collapse_ws CInWord s) /\
  collapse_ws CPending s = (match collapse_ws CStart s with [] => [] | x => 32 :: x end).
Proof.
  induction s as [|c t (IA & IB & IC)].
  - split; [reflexivity|]. split; [|reflexivity].
    intros [|d cur] Hc; [contradiction|]. simpl. by rewrite app_nil_r.
  - simpl. destruct (is_ws c) eqn:Ec.
    + split; [exact IA|]. split; [|exact IC].
      intros [|d cur] Hc; [contradiction|]. rewrite IC, <- IA.
      pose proof (split_ws_acc_nonempty [] t) as ID.
      destruct (split_ws_acc [] t) as [|w ws]; [simpl; by rewrite app_nil_r|].
      inversion ID as [|? ? Hw _]; subst.
      destruct w as [|a w]; [contradiction|].
      assert (Hj : exists y, join_with [32] (@cons str (a :: w) ws) = a :: y)
        by (destruct ws; simpl; eauto).
      destruct Hj as [y Hy].
      change (join_with [32] (rev (d :: cur) :: (a :: w) :: ws))
        with (rev (d :: cur) ++ [32] ++ join_with [32] ((a :: w) :: ws)).
      assert (G : forall x : list Z, x <> [] ->
        rev (d :: cur) ++ [32] ++ x =
        rev (d :: cur) ++ match x with [] => [] | z :: l => 32 :: z :: l end)
        by (intros [|z l] Hx; [contradiction|reflexivity]).
      apply G. rewrite Hy. discriminate.
    + split; [|split; [|reflexivity]].
      * rewrite (IB [c]) by discriminate. reflexivity.
      * intros cur Hc. rewrite IB by discriminate. simpl. by rewrite <- app_assoc.
Qed.

Lemma join_split_ws_collapse s : join_with [32] (split_ws s) = collapse_ws CStart s.
Proof. apply split_ws_acc_collapse. Qed.

Lemma ends_ok_cons c t :
  ends_ok (c :: t) = match t with [] => negb (is_ws c) | _ => ends_ok t end.
Proof.
  unfold ends_ok. simpl. destruct t as [|d t]; [reflexivity|].
  destruct (rev (d :: t)) as [|e r] eqn:E.
  - apply (f_equal (@length Z)) in E. rewrite length_rev in E. discriminate.
  - reflexivity.
Qed.

Lemma sub_ws_runs_collapse s :
  (ends_ok s = true -> sub_ws_runs false s = collapse_ws CInWord s) /\
  (s <> [] -> ends_ok s = true -> 32 :: sub_ws_runs true s = collapse_ws CPending s).
Proof.
  induction s as [|c t [IH1 IH2]]; [split; [reflexivity|contradiction]|].
  rewrite ends_ok_cons. simpl. destruct (is_ws c) eqn:Ec.
  - destruct t as [|d t]; [split; discriminate|].
    split; intros; apply IH2; (discriminate || assumption).
  - split.
    + intros H. f_equal. apply IH1. destruct t; [reflexivity|exact H].
    + intros _ H. do 2 f_equal. apply IH1. destruct t; [reflexivity|exact H].
Qed.

Lemma lstrip_ws_split s : exists p, Forall (fun c => is_ws c = true) p /\ s = p ++ lstrip_ws s.
Proof.
  induction s as [|c s [p [Hp Hs]]]; simpl; [by exists []|].
  destruct (is_ws c) eqn:E; [|by exists []].
  exists (c :: p). split; [constructor; assumption|]. simpl. by rewrite <- Hs.
Qed.


Lemma collapse_ws_all_ws st q : Forall (fun c => is_ws c = true) q -> collapse_ws st q = [].
Proof.
  intros Hq. revert st. induction Hq as [|c q Hc Hq IH]; intros st; [reflexivity|].
  simpl. rewrite Hc. destruct st; apply IH.
Qed.

Lemma collapse_ws_app_ws st x q :
  Forall (fun c => is_ws c = true) q -> collapse_ws st (x ++ q) = collapse_ws st x.
Proof.
  intros Hq. revert st. induction x as [|c x IH]; intros st; simpl.
  - by apply collapse_ws_all_ws.
  - destruct (is_ws c); destruct st; rewrite ?IH; reflexivity.
Qed.

Lemma collapse_ws_start_ws p s :
  Forall (fun c => is_ws c = true) p -> collapse_ws CStart (p ++ s) = collapse_ws CStart s.
Proof. induction 1 as [|c p Hc _ IH]; [reflexivity|]. simpl. by rewrite Hc. Qed.

Lemma collapse_ws_start_head t : head_ok t = true -> collapse_ws CStart t = collapse_ws CInWord t.
Proof.
  destruct t as [|c t]; [reflexivity|]. simpl. intros H.
  destruct (is_ws c); [discriminate|reflexivity].
Qed.

Lemma normalize_text_collapse s : normalize_text s = collapse_ws CStart s.
Proof.
  destruct (lstrip_ws_split s) as [p [Hp Hs]].
  rewrite Hs at 2. rewrite collapse_ws_start_ws by exact Hp.
  set (u := lstrip_ws s) in *.
  destruct (lstrip_ws_split (rev u)) as [q [Hq Hu]].
  assert (Eu : u = strip_ws s ++ rev q).
  { unfold strip_ws. fold u. rewrite <- rev_app_distr, <- Hu. by rewrite rev_involutive. }
  rewrite Eu, collapse_ws_app_ws by (by apply Forall_rev).
  destruct (strip_ws_ends s) as [H1 H2].
  rewrite collapse_ws_start_head by exact H1.
  unfold normalize_text. apply sub_ws_runs_collapse. exact H2.
Qed.

Lemma trim_eq (s : str) (n : nat) :
  trim s n = (if (n <? length (normalize_text s))%nat
              then take n (normalize_text s) ++ ELLIPSIS else normalize_text s).
Proof.
  unfold trim. rewrite normalize_text_collapse, join_split_ws_collapse. reflexivity.
Qed.

Lemma trim_length (s : str) (n : nat) : (length (trim s n) <= n + 1)%nat.
Proof.
  rewrite trim_eq. destruct (Nat.ltb_spec n (length (normalize_text s))).
  - rewrite length_app, length_take. unfold ELLIPSIS. simpl. lia.
  - lia.
Qed.

(** X1: [trim] (yt_news.py) collapses whitespace exactly as [normalize_text]
    (yt_minutes.py) does; it returns that text when it has at most [n]
    characters, and otherwise its first [n] characters followed by the
    ellipsis, so the result never exceeds [n + 1] characters. *)
Theorem trim_normalizes (s : str) (n : nat) :
  join_with [32] (split_ws s) = normalize_text s /\
  trim s n = (if (n <? length (normalize_text s))%nat
              then take n (normalize_text s) ++ ELLIPSIS else normalize_text s) /\
  (length (trim s n) <= n + 1)%nat.
Proof.
  split; [by rewrite normalize_text_collapse, join_split_ws_collapse|].
  split; [apply trim_eq|apply trim_length].
Qed.

(* ------------------------------------------------------------------ *)
(** ** chunked for any size *)

Lemma chunked_go_nil {A} fuel size : chunked_go fuel size (@nil A) = [].
Proof. destruct fuel; simpl; [reflexivity|]. by rewrite take_nil. Qed.

Lemma chunked_go_sizes {A} fuel size (l : list A) :
  (0 < size)%nat -> (length l < fuel)%nat ->
  concat (chunked_go fuel size l) = l /\
  (chunked_go fuel size l = [] <-> l = []) /\
  Forall (fun c => length c = size) (removelast (chunked_go fuel size l)) /\
  (l <> [] -> (0 < length (List.last (chunked_go fuel size l) []) <= size)%nat).
Proof.
  intros Hs. revert l. induction fuel as [|fuel IH]; intros l Hl; [lia|].
  destruct l as [|x l'].
  { rewrite chunked_go_nil. split; [reflexivity|]. split; [tauto|]. split; [constructor|].
    contradiction. }
  destruct size as [|s]; [lia|].
  cbn [chunked_go]. change (take (S s) (x :: l')) with (x :: take s l').
  change (drop (S s) (x :: l')) with (drop s l').
  destruct (IH (drop s l')) as (Hc & He & Hf & Hlast).
  { rewrite length_drop. simpl in Hl. lia. }
  split; [|split; [|split]].
  - simpl. rewrite Hc. f_equal. apply take_drop.
  - split; discriminate.
  - destruct (chunked_go fuel (S s) (drop s l')) as [|c cs] eqn:Ec; [constructor|].
    change (removelast ((x :: take s l') :: c :: cs)) with
      ((x :: take s l') :: removelast (c :: cs)).
    constructor; [|exact Hf].
    assert (Hd : drop s l' <> []) by (intros Hd; apply He in Hd; discriminate).
    cbn [length]. rewrite length_take.
    assert (s < length l')%nat.
    { destruct (Nat.lt_ge_cases s (length l')) as [H|H]; [exact H|].
      exfalso. apply Hd. by apply drop_ge. }
    lia.
  - intros _. destruct (chunked_go fuel (S s) (drop s l')) as [|c cs] eqn:Ec.
    + simpl. rewrite length_take. lia.
    + change (List.last ((x :: take s l') :: c :: cs) []) with (List.last (c :: cs) []).
      apply Hlast. intros Hd. apply He in Hd. discriminate.
Qed.

(** X2: for a positive [size], [chunked(iterable, size)] yields chunks whose
    concatenation is the input, nothing at all for an empty input, every
    chunk but the last of exactly [size] items, and a last chunk of 1 to
    [size] items. *)
Theorem chunked_sizes {A} (l : list A) (size : nat) :
  (0 < size)%nat ->
  concat (chunked l size) = l /\
  (chunked l size = [] <-> l = []) /\
  Forall (fun c => length c = size) (removelast (chunked l size)) /\
  (l <> [] -> (0 < length (List.last (chunked l size) []) <= size)%nat).
Proof. intros Hs. apply chunked_go_sizes; [exact Hs|lia]. Qed.

Lemma chunked_sizes_witness :
  (0 < 3)%nat /\
  concat (chunked (seq 0 7) 3) = seq 0 7 /\
  map (@length nat) (chunked (seq 0 7) 3) = [3; 3; 1]%nat.
Proof.
  split; [lia|]. split; [|reflexivity].
  destruct (chunked_sizes (seq 0 7) 3) as [H _]; [lia|exact H].
Defined.

(** X3: with [size = 0], [islice(it, 0)] is empty at once, so [chunked]
    yields nothing whatever the input: every item is dropped. *)
Theorem chunked_size_zero {A} (l : list A) : chunked l 0 = [].
Proof. reflexivity. Qed.

(* ------------------------------------------------------------------ *)
(** ** fetch_videos_meta: results and errors *)

Lemma fetch_chunks_all api (f : list str -> list Meta) chunks items log :
  (forall c, api_videos api c = Ok (f c)) ->
  fetch_chunks api chunks items log =
    (log ++ map EvVideos chunks, Ok (items ++ concat (map f chunks))).
Proof.
  intros Hf. revert items log.
  induction chunks as [|c chunks IH]; intros items log; simpl.
  - by rewrite !app_nil_r.
  - unfold M_bind, call. rewrite Hf, IH. by rewrite <- !app_assoc.
Qed.

Lemma fetch_chunks_fail api pre c post e items log :
  (forall c', In c' pre -> exists r, api_videos api c' = Ok r) ->
  api_videos api c = Err e ->
  fetch_chunks api (pre ++ c :: post) items log =
    (log ++ map EvVideos (pre ++ [c]), Err e).
Proof.
  intros Hok He. revert items log.
  induction pre as [|c' pre IH]; intros items log; simpl.
  - unfold M_bind, call. by rewrite He.
  - destruct (Hok c' (or_introl eq_refl)) as [r Hr].
    unfold M_bind, call. rewrite Hr. fold (@M_bind).
    rewrite IH by (intros c'' H; apply Hok; right; exact H).
    by rewrite <- app_assoc.
Qed.

(** X4: when every [videos.list] call succeeds, [fetch_videos_meta]
    returns the responses of the batches of [chunked(ids, 50)] concatenated
    in request order ([items.extend] per batch), after one request per
    batch; an empty id list makes no request and returns no item. *)
Theorem fetch_videos_meta_result api (f : list str -> list Meta) ids log :
  (forall c, api_videos api c = Ok (f c)) ->
  fetch_videos_meta api ids log =
    (log ++ map EvVideos (chunked ids 50), Ok (concat (map f (chunked ids 50)))) /\
  fetch_videos_meta api [] log = (log, Ok []).
Proof.
  intros Hf. split.
  - unfold fetch_videos_meta. by rewrite (fetch_chunks_all api f).
  - reflexivity.
Qed.


Lemma fetch_videos_meta_result_witness :
  fetch_videos_meta echo_api [s_ "a"; s_ "b"] [] =
    ([EvVideos [s_ "a"; s_ "b"]], Ok [echo_meta (s_ "a"); echo_meta (s_ "b")]).
Proof.
  destruct (fetch_videos_meta_result echo_api (map echo_meta) [s_ "a"; s_ "b"] []) as [H _].
  - intros c. reflexivity.
  - exact H.
Defined.

(** X5: [fetch_videos_meta] stops at the first batch whose request fails:
    the error propagates out of it, no later batch is requested, and the
    items of the earlier batches are lost with it. *)
Theorem fetch_videos_meta_fail_fast api ids pre c post e log :
  chunked ids 50 = pre ++ c :: post ->
  (forall c', In c' pre -> exists r, api_videos api c' = Ok r) ->
  api_videos api c = Err e ->
  fetch_videos_meta api ids log = (log ++ map EvVideos (pre ++ [c]), Err e).
Proof.
  intros Hc Hok He. unfold fetch_videos_meta. rewrite Hc.
  by apply fetch_chunks_fail.
Qed.



Lemma fetch_videos_meta_fail_fast_witness :
  fetch_videos_meta short_batch_fails_api sixty_ids [] =
    ([] ++ map EvVideos ([take 50 sixty_ids] ++ [drop 50 sixty_ids]), Err HTTPError).
Proof.
  apply (fetch_videos_meta_fail_fast short_batch_fails_api sixty_ids
           [take 50 sixty_ids] (drop 50 sixty_ids) [] HTTPError []).
  - vm_compute. reflexivity.
  - intros c' [<-|[]]. exists []. vm_compute. reflexivity.
  - vm_compute. reflexivity.
Defined.

(* ------------------------------------------------------------------ *)
(** ** The loop over the channels *)

(** X6: when the loop over the channels completes, the set only grows,
    every id added is the [videoId] of an entry of some [playlistItems.list]
    answer that passes the recency filter, and the calls made are one
    [channels.list] per channel, in [CHANNEL_IDS] order, and
    [playlistItems.list] calls with [maxResults = min(MAX_PER_CHANNEL, 50)]:
    no video lookup and no Slack post. *)
Lemma collect_ids_success api cfg cutoff chs acc log log' r :
  collect_ids api cfg cutoff chs acc log = (log', Ok r) ->
  acc ⊆ r /\
  (forall x, x ∈ r -> x ∈ acc \/
     exists pid items it, api_playlist api pid (Z.min (MAX_PER_CHANNEL cfg) 50) = Ok items /\
       In it items /\ pi_videoId it = x /\ keep_recent cutoff it = true) /\
  exists evs, log' = log ++ evs /\ channel_requests evs = chs /\
    Forall (lookup_call (Z.min (MAX_PER_CHANNEL cfg) 50)) evs.
Proof.
  revert acc log. induction chs as [|ch chs IH]; intros acc log H.
  { injection H as <- <-. split; [set_solver|]. split; [by left|].
    exists []. split; [by rewrite app_nil_r|]. split; constructor. }
  cbn [collect_ids] in H.
  unfold get_uploads_pid, list_recent_video_ids, M_bind, call, M_ret, M_raise in H.
  destruct (api_channels api ch) as [items|e]; cbn in H; [|discriminate].
  assert (Hskip : forall acc0 log0, acc0 = acc -> log0 = log ++ [EvChannels ch] ->
    collect_ids api cfg cutoff chs acc0 log0 = (log', Ok r) ->
    acc ⊆ r /\
    (forall x, x ∈ r -> x ∈ acc \/
       exists pid items it, api_playlist api pid (Z.min (MAX_PER_CHANNEL cfg) 50) = Ok items /\
         In it items /\ pi_videoId it = x /\ keep_recent cutoff it = true) /\
    exists evs, log' = log ++ evs /\ channel_requests evs = ch :: chs /\
      Forall (lookup_call (Z.min (MAX_PER_CHANNEL cfg) 50)) evs).
  { intros acc0 log0 -> -> Hc. destruct (IH _ _ Hc) as (Hs & Hx & evs & Hl & Hr & Hf).
    split; [exact Hs|]. split; [exact Hx|].
    exists (EvChannels ch :: evs). split; [by rewrite Hl, <- app_assoc|].
    split; [simpl; by rewrite Hr|]. constructor; [exact I|exact Hf]. }
  destruct items as [|it items]; cbn in H; [exact (Hskip _ _ eq_refl eq_refl H)|].
  destruct (ci_uploads it) as [u|]; cbn in H; [|discriminate].
  destruct (truthy u); cbn in H; [|exact (Hskip _ _ eq_refl eq_refl H)].
  destruct (api_playlist api u (Z.min (MAX_PER_CHANNEL cfg) 50)) as [pl|e] eqn:Hpl;
    cbn in H; [|discriminate].
  destruct (IH _ _ H) as (Hs & Hx & evs & Hl & Hr & Hf).
  unfold set_update in Hs, Hx. rewrite recent_ids_filter in Hs, Hx.
  split; [set_solver|]. split.
  - intros x Hxr. destruct (Hx x Hxr) as [Hxa|Hxp]; [|by right].
    apply elem_of_union in Hxa as [Hxa|Hxa]; [by left|right].
    apply elem_of_list_to_set, list_elem_of_In, in_map_iff in Hxa as [it' [Hid Hin]].
    apply filter_In in Hin as [Hin Hk].
    exists u, pl, it'. auto.
  - exists (EvChannels ch :: EvPlaylist u (Z.min (MAX_PER_CHANNEL cfg) 50) :: evs).
    split; [by rewrite Hl, <- !app_assoc|].
    split; [simpl; by rewrite Hr|].
    constructor; [exact I|]. constructor; [reflexivity|exact Hf].
Qed.

Lemma collect_ids_success_witness :
  let items := [{| pi_videoId := s_ "v1"; pi_videoPublishedAt := Some (s_ "2026-10-18T05:00:00Z") |};
                {| pi_videoId := s_ "v0"; pi_videoPublishedAt := Some (s_ "2026-10-17T05:00:00Z") |}] in
  (∅ : gset str) ⊆ {[s_ "v1"]} /\
  (forall x, x ∈ ({[s_ "v1"]} : gset str) -> x ∈ (∅ : gset str) \/
     exists pid items' it, api_playlist (one_channel_api items) pid
                             (Z.min (MAX_PER_CHANNEL sample_cfg) 50) = Ok items' /\
       In it items' /\ pi_videoId it = x /\ keep_recent (s_ "2026-10-18T00:00:00Z") it = true) /\
  exists evs, [EvChannels (s_ "UC1"); EvPlaylist (s_ "UU1") 10] = [] ++ evs /\
    channel_requests evs = [s_ "UC1"] /\
    Forall (lookup_call (Z.min (MAX_PER_CHANNEL sample_cfg) 50)) evs.
Proof.
  intros items.
  apply (collect_ids_success (one_channel_api items) sample_cfg (s_ "2026-10-18T00:00:00Z")
           [s_ "UC1"] ∅ []).
  vm_compute. reflexivity.
Defined.

Lemma lookup_calls_silent max evs :
  Forall (lookup_call max) evs -> posts evs = [] /\ video_requests evs = [].
Proof.
  induction 1 as [|e evs He _ [IH1 IH2]]; [split; reflexivity|].
  destruct e; simpl in He |- *; try contradiction; split; assumption.
Qed.

Lemma collect_ids_log api cfg cutoff chs acc log :
  exists evs, fst (collect_ids api cfg cutoff chs acc log) = log ++ evs /\
    Forall (lookup_call (Z.min (MAX_PER_CHANNEL cfg) 50)) evs.
Proof.
  revert acc log. induction chs as [|ch chs IH]; intros acc log.
  { exists []. split; [by rewrite app_nil_r|constructor]. }
  cbn [collect_ids].
  unfold get_uploads_pid, list_recent_video_ids, M_bind, call, M_ret, M_raise.
  destruct (api_channels api ch) as [items|e]; cbn.
  2: { exists [EvChannels ch]. split; [reflexivity|repeat constructor]. }
  assert (Hskip : forall acc0, exists evs,
    fst (collect_ids api cfg cutoff chs acc0 (log ++ [EvChannels ch])) = log ++ evs /\
    Forall (lookup_call (Z.min (MAX_PER_CHANNEL cfg) 50)) evs).
  { intros acc0. destruct (IH acc0 (log ++ [EvChannels ch])) as [evs [Hl Hf]].
    exists (EvChannels ch :: evs). rewrite Hl, <- app_assoc.
    split; [reflexivity|constructor; [exact I|exact Hf]]. }
  destruct items as [|it items]; cbn; [apply Hskip|].
  destruct (ci_uploads it) as [u|]; cbn.
  2: { exists [EvChannels ch]. split; [reflexivity|repeat constructor]. }
  destruct (truthy u); cbn; [|apply Hskip].
  destruct (api_playlist api u (Z.min (MAX_PER_CHANNEL cfg) 50)) as [pl|e]; cbn.
  - destruct (IH (set_update acc (recent_ids cutoff pl))
                 ((log ++ [EvChannels ch]) ++ [EvPlaylist u (Z.min (MAX_PER_CHANNEL cfg) 50)]))
      as [evs [Hl Hf]].
    exists (EvChannels ch :: EvPlaylist u (Z.min (MAX_PER_CHANNEL cfg) 50) :: evs).
    rewrite Hl, <- !app_assoc. split; [reflexivity|].
    constructor; [exact I|constructor; [reflexivity|exact Hf]].
  - exists [EvChannels ch; EvPlaylist u (Z.min (MAX_PER_CHANNEL cfg) 50)].
    rewrite <- app_assoc. split; [reflexivity|].
    constructor; [exact I|constructor; [reflexivity|constructor]].
Qed.

(** X7: when the loop over the channels raises (an HTTP error, or a
    missing [uploads] key), both [main]s end with that same error right
    there: no [videos.list] request and no Slack post is made. *)
Theorem main_stops_on_lookup_error api cfg rt log0 log1 e :
  collect_ids api cfg (published_after_z rt) (CHANNEL_IDS cfg) ∅ log0 = (log1, Err e) ->
  main_minutes api cfg rt log0 = (log1, Err e) /\
  main_news api cfg rt log0 = (log1, Err e) /\
  posts log1 = posts log0 /\
  video_requests log1 = video_requests log0.
Proof.
  intros H.
  destruct (collect_ids_log api cfg (published_after_z rt) (CHANNEL_IDS cfg) ∅ log0)
    as [evs [Hl Hf]].
  rewrite H in Hl. simpl in Hl. subst log1.
  destruct (lookup_calls_silent _ _ Hf) as [Hp Hv].
  split; [unfold main_minutes, M_bind; by rewrite H|].
  split; [unfold main_news, M_bind; by rewrite H|].
  rewrite posts_app, video_requests_app, Hp, Hv, !app_nil_r. split; reflexivity.
Qed.

Lemma main_stops_on_lookup_error_witness :
  main_minutes channels_down_api sample_cfg sample_rt [] = ([EvChannels (s_ "UC1")], Err HTTPError) /\
  main_news channels_down_api sample_cfg sample_rt [] = ([EvChannels (s_ "UC1")], Err HTTPError) /\
  posts [EvChannels (s_ "UC1")] = posts [] /\
  video_requests [EvChannels (s_ "UC1")] = video_requests [].
Proof.
  apply main_stops_on_lookup_error. vm_compute. reflexivity.
Defined.

(** X8: [get_uploads_pid] reads the [uploads] key of the first channel
    item only; when that key is missing (even if a later item has it), or
    when [channels.list] fails, the whole loop over the channels stops
    with the error right after that one request, and the channels after it
    are never looked up. *)
Theorem collect_ids_lookup_error api cfg cutoff ch rest acc log e :
  (api_channels api ch = Err e \/
   exists it items, api_channels api ch = Ok (it :: items) /\ ci_uploads it = None /\ e = KeyError) ->
  collect_ids api cfg cutoff (ch :: rest) acc log = (log ++ [EvChannels ch], Err e).
Proof.
  intros [H|(it & items & H & Hu & ->)]; cbn [collect_ids];
    unfold get_uploads_pid, M_bind, call, M_ret, M_raise; rewrite H; cbn; [reflexivity|].
  by rewrite Hu.
Qed.

Lemma collect_ids_lookup_error_witness :
  collect_ids first_item_without_uploads_api sample_cfg (s_ "2026-10-18T00:00:00Z")
    [s_ "UC1"; s_ "UC2"] ∅ [] = ([] ++ [EvChannels (s_ "UC1")], Err KeyError).
Proof.
  apply collect_ids_lookup_error. right.
  exists {| ci_uploads := None |}, [{| ci_uploads := Some (s_ "UU1") |}].
  split; [reflexivity|]. split; reflexivity.
Defined.

Lemma fetch_chunks_log api chunks items log :
  exists cs, fst (fetch_chunks api chunks items log) = log ++ map EvVideos cs.
Proof.
  revert items log. induction chunks as [|c chunks IH]; intros items log.
  { exists []. simpl. by rewrite app_nil_r. }
  cbn [fetch_chunks]. unfold M_bind, call.
  destruct (api_videos api c) as [r|e]; cbn.
  - destruct (IH (items ++ r) (log ++ [EvVideos c])) as [cs Hcs].
    exists (c :: cs). rewrite Hcs, <- app_assoc. reflexivity.
  - exists [c]. reflexivity.
Qed.

Lemma posts_map_EvVideos cs : posts (map EvVideos cs) = [].
Proof. induction cs; simpl; auto. Qed.

Lemma collect_ids_posts_log api cfg cutoff chs acc log :
  posts (fst (collect_ids api cfg cutoff chs acc log)) = posts log /\
  video_requests (fst (collect_ids api cfg cutoff chs acc log)) = video_requests log.
Proof.
  destruct (collect_ids_log api cfg cutoff chs acc log) as [evs [Hl Hf]].
  destruct (lookup_calls_silent _ _ Hf) as [Hp Hv].
  rewrite Hl, posts_app, video_requests_app, Hp, Hv, !app_nil_r. split; reflexivity.
Qed.

(** X9: each [main] sends at most one Slack message per run, whatever the
    API answers and wherever an exception stops it. *)
Theorem main_posts_at_most_once api cfg rt log0 :
  (exists ms, posts (fst (main_minutes api cfg rt log0)) = posts log0 ++ ms /\ (length ms <= 1)%nat) /\
  (exists ms, posts (fst (main_news api cfg rt log0)) = posts log0 ++ ms /\ (length ms <= 1)%nat).
Proof.
  pose proof (collect_ids_posts_log api cfg (published_after_z rt) (CHANNEL_IDS cfg) ∅ log0)
    as [Hp _].
  unfold main_minutes, main_news, M_bind.
  destruct (collect_ids api cfg (published_after_z rt) (CHANNEL_IDS cfg) ∅ log0)
    as [log1 [S|e]]; simpl in Hp.
  2: { split; exists []; (split; [by rewrite app_nil_r|simpl; lia]). }
  destruct (bool_decide (S = ∅)).
  { split; [exists [MsgText (no_new_items_text cfg rt)]|exists []].
    - unfold post, call. simpl. rewrite posts_app, Hp. split; [reflexivity|simpl; lia].
    - simpl. rewrite Hp, app_nil_r. split; [reflexivity|simpl; lia]. }
  destruct (fetch_chunks_log api (chunked (elements S) 50) [] log1) as [cs Hcs].
  unfold fetch_videos_meta.
  destruct (fetch_chunks api (chunked (elements S) 50) [] log1) as [log2 [metas|e]].
  all: simpl in Hcs; subst log2.
  all: rewrite ?posts_app, ?posts_map_EvVideos, ?Hp, ?app_nil_r.
  - split; [exists [MsgText (build_minutes_text rt (sort_by_pub_desc metas))]
            |exists [MsgBlocks lit_news_text
                      ([BHeader (lit_news_head ++ py_str_int (HOURS_WINDOW cfg) ++ lit_h_close)] ++
                       concat (map (news_item_blocks rt) (sort_by_pub_desc metas)))]];
    unfold post, call; simpl; rewrite posts_app, posts_app, posts_map_EvVideos, Hp; simpl;
    (split; [by rewrite app_nil_r|lia]).
  - split; exists []; simpl; rewrite posts_app, posts_map_EvVideos, Hp;
    (split; [reflexivity|simpl; lia]).
Qed.

(** X10: when the loop over the channels yields a non-empty set and every
    [videos.list] call succeeds, each [main] requests the set's ids in
    batches of [chunked(list(all_ids), 50)] (every id exactly once), sorts
    the concatenated answers newest first, and ends with exactly one post:
    the minutes text in yt_minutes.py, the header block followed by the
    items' blocks in yt_news.py. *)
Theorem main_pipeline api cfg rt (f : list str -> list Meta) log0 log1 S :
  collect_ids api cfg (published_after_z rt) (CHANNEL_IDS cfg) ∅ log0 = (log1, Ok S) ->
  S <> ∅ ->
  (forall c, api_videos api c = Ok (f c)) ->
  let metas := sort_by_pub_desc (concat (map f (chunked (elements S) 50))) in
  fst (main_minutes api cfg rt log0) =
    log1 ++ map EvVideos (chunked (elements S) 50) ++
      [EvPost (MsgText (build_minutes_text rt metas))] /\
  fst (main_news api cfg rt log0) =
    log1 ++ map EvVideos (chunked (elements S) 50) ++
      [EvPost (MsgBlocks lit_news_text
         (BHeader (lit_news_head ++ py_str_int (HOURS_WINDOW cfg) ++ lit_h_close) ::
          concat (map (news_item_blocks rt) metas)))] /\
  concat (video_requests (fst (main_minutes api cfg rt log0))) =
    concat (video_requests log0) ++ elements S /\
  NoDup (elements S).
Proof.
  intros Hc Hne Hf metas.
  pose proof (collect_ids_posts_log api cfg (published_after_z rt) (CHANNEL_IDS cfg) ∅ log0)
    as [_ Hv]. rewrite Hc in Hv. simpl in Hv.
  assert (Hfetch : fetch_videos_meta api (elements S) log1 =
    (log1 ++ map EvVideos (chunked (elements S) 50),
     Ok (concat (map f (chunked (elements S) 50)))))
    by (unfold fetch_videos_meta; by rewrite (fetch_chunks_all api f)).
  assert (Hm : fst (main_minutes api cfg rt log0) =
    log1 ++ map EvVideos (chunked (elements S) 50) ++
      [EvPost (MsgText (build_minutes_text rt metas))]).
  { unfold main_minutes, M_bind. rewrite Hc, bool_decide_eq_false_2 by exact Hne.
    rewrite Hfetch. unfold post, call. simpl. by rewrite <- app_assoc. }
  split; [exact Hm|]. split.
  - unfold main_news, M_bind. rewrite Hc, bool_decide_eq_false_2 by exact Hne.
    rewrite Hfetch. unfold post, call. simpl. by rewrite <- app_assoc.
  - split; [|apply NoDup_elements].
    rewrite Hm, !video_requests_app, video_requests_map_EvVideos, Hv. simpl.
    rewrite app_nil_r, concat_app. f_equal. apply chunked_50.
Qed.

Lemma main_pipeline_witness :
  let items := [{| pi_videoId := s_ "v1"; pi_videoPublishedAt := Some (s_ "2026-10-18T05:00:00Z") |}] in
  let metas := sort_by_pub_desc (concat (map (map echo_meta) (chunked (elements ({[s_ "v1"]} : gset str)) 50))) in
  fst (main_minutes (one_channel_echo_api items) sample_cfg sample_rt []) =
    [EvChannels (s_ "UC1"); EvPlaylist (s_ "UU1") 10] ++
    map EvVideos (chunked (elements ({[s_ "v1"]} : gset str)) 50) ++
      [EvPost (MsgText (build_minutes_text sample_rt metas))].
Proof.
  intros items metas.
  destruct (main_pipeline (one_channel_echo_api items) sample_cfg sample_rt (map echo_meta) []
              [EvChannels (s_ "UC1"); EvPlaylist (s_ "UU1") 10] {[s_ "v1"]}) as [H _].
  - vm_compute. reflexivity.
  - apply non_empty_singleton_L.
  - intros c. reflexivity.
  - exact H.
Defined.

(* ------------------------------------------------------------------ *)
(** ** Characters kept by normalize_text and bullets_from_description *)

Lemma collapse_ws_chars st s :
  Forall (fun c => c = 32 \/ (In c s /\ is_ws c = false)) (collapse_ws st s).
Proof.
  revert st. induction s as [|c t IH]; intros st; simpl; [constructor|].
  assert (IH' : forall st', Forall (fun d => d = 32 \/ ((c = d \/ In d t) /\ is_ws d = false))
                                   (collapse_ws st' t)).
  { intros st'. eapply Forall_impl; [apply IH|]. intros d [Hd|[Hd Hw]]; [by left|by right; auto]. }
  destruct (is_ws c) eqn:Ec; destruct st; try apply IH';
    repeat constructor; auto; apply IH'.
Qed.

Lemma collapse_ws_filter st s :
  List.filter (fun c => negb (is_ws c)) (collapse_ws st s) = List.filter (fun c => negb (is_ws c)) s.
Proof.
  revert st. induction s as [|c t IH]; intros st; simpl; [reflexivity|].
  destruct (is_ws c) eqn:Ec; destruct st; simpl; rewrite ?Ec; simpl; rewrite ?IH; reflexivity.
Qed.

(** X11: [normalize_text] neither drops nor adds a non-whitespace
    character (they come out in the same order), and the only whitespace
    left in its result is the plain space. *)
Theorem normalize_text_keeps_text (s : str) :
  List.filter (fun c => negb (is_ws c)) (normalize_text s) = List.filter (fun c => negb (is_ws c)) s /\
  Forall (fun c => is_ws c = true -> c = 32) (normalize_text s).
Proof.
  rewrite normalize_text_collapse. split; [apply collapse_ws_filter|].
  eapply Forall_impl; [apply collapse_ws_chars|].
  intros c [Hc|[_ Hw]] H; [exact Hc|congruence].
Qed.

Lemma split_delims_acc_clean b cur s :
  Forall (fun c => is_delim c = false) cur ->
  Forall (Forall (fun c => is_delim c = false)) (split_delims_acc b cur s).
Proof.
  revert b cur. induction s as [|c t IH]; intros b cur Hcur; simpl.
  - constructor; [by apply Forall_rev|constructor].
  - destruct (is_delim c) eqn:Ec.
    + destruct b; [by apply IH|]. constructor; [by apply Forall_rev|]. apply IH. constructor.
    + apply IH. constructor; assumption.
Qed.

Lemma desc_fragments_clean desc :
  Forall (Forall (fun c => is_delim c = false)) (desc_fragments desc).
Proof.
  unfold desc_fragments. apply Forall_concat, List.Forall_forall. intros fs Hfs.
  apply in_map_iff in Hfs as [line [<- _]].
  unfold line_fragments. destruct (truthy (strip_marks line)); [|constructor].
  apply split_delims_acc_clean. constructor.
Qed.

(** X12: a bullet of [bullets_from_description] never contains a
    delimiter of [[。.!?・•\-]], and its only whitespace is the plain
    space: no newline, carriage return or tab survives. *)
Theorem bullets_clean (desc : str) (max_items : nat) :
  Forall (Forall (fun c => is_delim c = false /\ (is_ws c = true -> c = 32)))
    (bullets_from_description desc max_items).
Proof.
  rewrite bullets_from_description_eq. apply Forall_take.
  pose proof (desc_fragments_clean desc) as Hd.
  induction (desc_fragments desc) as [|g frs IH]; cbn [List.filter map]; [constructor|].
  inversion Hd as [|? ? Hg Hfrs]; subst.
  destruct (8 <=? length (normalize_text g))%nat; [constructor|]; try (apply IH; exact Hfrs).
  rewrite normalize_text_collapse. eapply Forall_impl; [apply collapse_ws_chars|].
  intros c [->|[Hin Hw]]; [split; reflexivity|].
  split; [|congruence].
  apply List.Forall_forall with (x := c) in Hg; [exact Hg|exact Hin].
Qed.

(* ------------------------------------------------------------------ *)
(** ** make_tags: order and repetitions *)

Lemma map_snd_filter_sublist {A B} (p : A * B -> bool) (l : list (A * B)) :
  map snd (List.filter p l) `sublist_of` map snd l.
Proof.
  induction l as [|kv l IH]; simpl; [constructor|].
  destruct (p kv); simpl; [by apply sublist_skip|by apply sublist_cons].
Qed.

(** X13: the tags of [make_tags] are either the single sentinel tag, or
    labels of [KEYWORDS] listed in the dict's order (a subsequence of the
    labels), never in the order they occur in the text. *)
Theorem make_tags_table_order lower title desc :
  make_tags lower title desc = [GENERAL_TAG] \/
  make_tags lower title desc `sublist_of` map snd KEYWORDS.
Proof.
  unfold make_tags.
  set (F := map snd (List.filter (fun kv => str_contains kv.1 (lower (title ++ [10] ++ desc))) KEYWORDS)).
  assert (H : take 5 F `sublist_of` map snd KEYWORDS)
    by (etrans; [apply sublist_take|apply map_snd_filter_sublist]).
  destruct (take 5 F) as [|t ts]; [by left|by right].
Qed.

(** X14: [make_tags] does not remove repeated labels: a text containing
    both ["vision"] and ["video"] gets the label ["画像/動画"] twice in a
    row. *)
Theorem make_tags_repeats_label lower title desc :
  str_contains (s_ "vision") (lower (title ++ [10] ++ desc)) = true ->
  str_contains (s_ "video") (lower (title ++ [10] ++ desc)) = true ->
  exists pre post, make_tags lower title desc = pre ++ IMAGE_VIDEO_TAG :: IMAGE_VIDEO_TAG :: post.
Proof.
  intros H1 H2. unfold make_tags.
  set (text := lower (title ++ [10] ++ desc)) in *.
  assert (HK : exists kv0 rest,
    KEYWORDS = kv0 :: (s_ "vision", IMAGE_VIDEO_TAG) :: (s_ "video", IMAGE_VIDEO_TAG) :: rest)
    by (eexists _, _; reflexivity).
  destruct HK as (kv0 & rest & ->). cbn [List.filter fst]. rewrite H1, H2.
  destruct (str_contains kv0.1 text); [exists [kv0.2]|exists []]; eexists; reflexivity.
Qed.

Lemma make_tags_repeats_label_witness :
  exists pre post, make_tags lower_ascii (s_ "Vision and Video") [] =
                   pre ++ IMAGE_VIDEO_TAG :: IMAGE_VIDEO_TAG :: post.
Proof. apply make_tags_repeats_label; vm_compute; reflexivity. Defined.

(* ------------------------------------------------------------------ *)
(** ** The shape of the messages *)

Lemma minutes_item_lines_length rt idx it :
  (9 <= length (minutes_item_lines rt idx it) <= 11)%nat.
Proof.
  unfold minutes_item_lines. rewrite !length_app, length_map. cbn [length].
  destruct (truthy (get_or (m_description it) [])); [|simpl; lia].
  assert (Hl : (length (bullets_from_description (get_or (m_description it) []) 3) <= 3)%nat)
    by (rewrite bullets_from_description_eq, length_take; lia).
  revert Hl.
  destruct (bullets_from_description (get_or (m_description it) []) 3) as [|b bs];
    simpl; unfold str; lia.
Qed.

(** X15: in [build_minutes_text], each item contributes 9 to 11 lines:
    title, date, presenter, the summary heading, 1 to 3 bullet lines, URL,
    tags, the rule and an empty line; [n] items give between [9n] and
    [11n] lines after the heading. *)
Theorem minutes_items_length rt idx metas :
  (9 * length metas <= length (minutes_items rt idx metas) <= 11 * length metas)%nat.
Proof.
  revert idx. induction metas as [|it metas IH]; intros idx; cbn [minutes_items length]; [lia|].
  rewrite length_app. pose proof (minutes_item_lines_length rt idx it).
  specialize (IH (S idx)). lia.
Qed.

(** X16: in yt_news.py each item gives three blocks (a section, a context
    of three elements, a divider), so [n] items give [3n] blocks after the
    header; the description shown in the section is the whitespace
    normalized description (["（説明なし）"] when it is missing), cut to
    180 characters plus the ellipsis. *)
Theorem news_item_blocks_shape rt metas :
  length (concat (map (news_item_blocks rt) metas)) = (3 * length metas)%nat /\
  Forall (fun it => exists pre d ctx,
    news_item_blocks rt it = [BSection (pre ++ [10] ++ d); BContext ctx; BDivider] /\
    length ctx = 3%nat /\ (length d <= 181)%nat /\
    (d = normalize_text (get_or (m_description it) lit_no_desc) \/
     d = take 180 (normalize_text (get_or (m_description it) lit_no_desc)) ++ ELLIPSIS)) metas.
Proof.
  split.
  - induction metas as [|it metas IH]; [reflexivity|]. cbn [map concat].
    rewrite length_app, IH. change (length (news_item_blocks rt it)) with 3%nat. cbn [length]. lia.
  - apply List.Forall_forall. intros it _.
    pose proof (trim_eq (get_or (m_description it) lit_no_desc) 180) as Ht.
    pose proof (trim_length (get_or (m_description it) lit_no_desc) 180) as Hl.
    exists (s_ "*<" ++ (WATCH_URL ++ m_id it) ++ s_ "|" ++ get_or (m_title it) (s_ "(no title)") ++ s_ ">*").
    eexists (trim (get_or (m_description it) lit_no_desc) 180), _.
    split; [unfold news_item_blocks; by rewrite <- !app_assoc|].
    split; [reflexivity|]. split; [exact Hl|].
    rewrite Ht. destruct (180 <? _)%nat; [by right|by left].
Qed.

(* ------------------------------------------------------------------ *)
(** ** trim applied twice *)

Lemma ws_clean_snoc b x c :
  is_ws c = false -> ws_clean b (x ++ [c]) = ws_clean b x.
Proof.
  intros Hc. revert b. induction x as [|d x IH]; intros b; simpl.
  - by rewrite Hc.
  - destruct (is_ws d); rewrite IH; reflexivity.
Qed.

Lemma ws_clean_take b x n : ws_clean b x = true -> ws_clean b (take n x) = true.
Proof.
  revert b n. induction x as [|d x IH]; intros b n H; [by rewrite take_nil|].
  destruct n as [|n]; [reflexivity|]. simpl in H |- *.
  destruct (is_ws d).
  - apply andb_prop in H as [H1 H2]. rewrite H1. simpl. by apply IH.
  - by apply IH.
Qed.

Lemma normalize_text_cut t n :
  head_ok t = true -> ws_clean false t = true ->
  normalize_text (take n t ++ ELLIPSIS) = take n t ++ ELLIPSIS.
Proof.
  intros H1 H3. unfold normalize_text.
  rewrite strip_ws_id.
  - apply sub_ws_runs_id. unfold ELLIPSIS. rewrite ws_clean_snoc by reflexivity.
    by apply ws_clean_take.
  - destruct n as [|n]; [reflexivity|]. destruct t as [|c t]; [reflexivity|]. exact H1.
  - unfold ELLIPSIS. rewrite rev_app_distr. reflexivity.
Qed.

(** X17: [trim] is idempotent: trimming its result again (with the same
    limit) changes nothing, also when the first call cut the text and
    appended the ellipsis. *)
Theorem trim_idempotent (s : str) (n : nat) : trim (trim s n) n = trim s n.
Proof.
  destruct (normalize_text_normal s) as (H1 & _ & H3).
  rewrite (trim_eq s n). set (t := normalize_text s) in *.
  destruct (Nat.ltb_spec n (length t)) as [Hlt|Hge].
  - rewrite trim_eq, normalize_text_cut by assumption.
    rewrite length_app, length_take. change (length ELLIPSIS) with 1%nat.
    replace (n <? Init.Nat.min n (length t) + 1)%nat with true
      by (symmetry; apply Nat.ltb_lt; lia).
    rewrite take_app_le by (rewrite length_take; lia).
    rewrite take_take. by rewrite Nat.min_id.
  - rewrite trim_eq. subst t. rewrite normalize_text_idem.
    destruct (Nat.ltb_spec n (length (normalize_text s))); [lia|reflexivity].
Qed.

(* ------------------------------------------------------------------ *)
(** ** Sorting an already sorted list *)

Lemma insert_by_pub_last x l :
  Forall (fun y => str_ltb (m_publishedAt x) (m_publishedAt y) = false) l ->
  insert_by_pub x l = l ++ [x].
Proof.
  induction 1 as [|y l Hy _ IH]; simpl; [reflexivity|]. by rewrite Hy, IH.
Qed.

Lemma StronglySorted_app_cons_inv {A} (R : A -> A -> Prop) acc x l :
  StronglySorted R (acc ++ x :: l) -> Forall (fun y => R y x) acc.
Proof.
  induction acc as [|y acc IH]; intros H; [constructor|].
  simpl in H. apply StronglySorted_inv in H as [Hs Hf]. constructor; [|by apply IH].
  apply List.Forall_forall with (x := x) in Hf; [exact Hf|].
  apply in_or_app. right. left. reflexivity.
Qed.

Lemma sort_fold_sorted_id l acc :
  StronglySorted pub_le (acc ++ l) ->
  fold_left (fun acc x => insert_by_pub x acc) l acc = acc ++ l.
Proof.
  revert acc. induction l as [|x l IH]; intros acc H; simpl; [by rewrite app_nil_r|].
  rewrite insert_by_pub_last.
  - rewrite IH; [by rewrite <- app_assoc|]. by rewrite <- app_assoc.
  - eapply Forall_impl; [exact (StronglySorted_app_cons_inv _ _ _ _ H)|].
    intros y Hy. exact Hy.
Qed.

Lemma sort_by_pub_desc_sorted metas :
  StronglySorted (fun a b => str_geb (m_publishedAt a) (m_publishedAt b) = true)
    (sort_by_pub_desc metas).
Proof.
  destruct (sort_by_pub_fold_spec (rev metas) [] (SSorted_nil _)) as (_ & Hs & _).
  unfold sort_by_pub_desc, sort_by_pub.
  eapply StronglySorted_impl; [|exact (StronglySorted_rev _ _ Hs)].
  intros a b H. unfold pub_le, str_geb in *. by rewrite H.
Qed.

(** X18: [metas.sort(key=publishedAt, reverse=True)] leaves a list that is
    already newest first exactly as it is (no reordering among equal
    timestamps either); in particular sorting a second time changes
    nothing. *)
Theorem sort_by_pub_desc_sorted_id (metas : list Meta) :
  StronglySorted (fun a b => str_geb (m_publishedAt a) (m_publishedAt b) = true) metas ->
  sort_by_pub_desc metas = metas /\
  sort_by_pub_desc (sort_by_pub_desc metas) = sort_by_pub_desc metas.
Proof.
  assert (Hid : forall l, StronglySorted (fun a b => str_geb (m_publishedAt a) (m_publishedAt b) = true) l ->
                sort_by_pub_desc l = l).
  { intros l Hl. unfold sort_by_pub_desc, sort_by_pub.
    rewrite (sort_fold_sorted_id (rev l) []); [apply rev_involutive|].
    simpl. eapply StronglySorted_impl; [|exact (StronglySorted_rev _ _ Hl)].
    intros a b H. unfold pub_le, str_geb in *. by apply negb_true_iff. }
  intros H. split; [exact (Hid _ H)|]. apply Hid, sort_by_pub_desc_sorted.
Qed.

Lemma sort_by_pub_desc_sorted_id_witness :
  sort_by_pub_desc [echo_meta (s_ "b"); echo_meta (s_ "a")] = [echo_meta (s_ "b"); echo_meta (s_ "a")] /\
  sort_by_pub_desc (sort_by_pub_desc [echo_meta (s_ "b"); echo_meta (s_ "a")]) =
    sort_by_pub_desc [echo_meta (s_ "b"); echo_meta (s_ "a")].
Proof.
  apply sort_by_pub_desc_sorted_id.
  repeat constructor; vm_compute; reflexivity.
Defined.

(* ------------------------------------------------------------------ *)
(** ** Descriptions made of whitespace only *)

Lemma Forall_filter_chars (P : Z -> Prop) (f : Z -> bool) l :
  Forall P l -> Forall P (List.filter f l).
Proof.
  intros H. apply List.Forall_forall. intros x Hx. apply filter_In in Hx as [Hx _].
  exact (proj1 (List.Forall_forall _ _) H x Hx).
Qed.

Lemma split_on_acc_Forall (P : Z -> Prop) sep cur s :
  Forall P cur -> Forall P s -> Forall (Forall P) (split_on_acc sep cur s).
Proof.
  revert cur. induction s as [|c t IH]; intros cur Hcur Hs; simpl.
  - constructor; [by apply Forall_rev|constructor].
  - inversion Hs as [|? ? Hc Ht]; subst. destruct (c =? sep).
    + constructor; [by apply Forall_rev|]. apply IH; [constructor|exact Ht].
    + apply IH; [constructor; assumption|exact Ht].
Qed.

Lemma lstrip_marks_Forall (P : Z -> Prop) s : Forall P s -> Forall P (lstrip_marks s).
Proof.
  induction 1 as [|c s Hc Hs IH]; simpl; [constructor|].
  destruct (is_mark c); [exact IH|constructor; assumption].
Qed.

Lemma split_delims_acc_Forall (P : Z -> Prop) b cur s :
  Forall P cur -> Forall P s -> Forall (Forall P) (split_delims_acc b cur s).
Proof.
  revert b cur. induction s as [|c t IH]; intros b cur Hcur Hs; simpl.
  - constructor; [by apply Forall_rev|constructor].
  - inversion Hs as [|? ? Hc Ht]; subst. destruct (is_delim c).
    + destruct b; [by apply IH|]. constructor; [by apply Forall_rev|].
      apply IH; [constructor|exact Ht].
    + apply IH; [constructor; assumption|exact Ht].
Qed.

Lemma desc_fragments_Forall (P : Z -> Prop) desc :
  Forall P desc -> Forall (Forall P) (desc_fragments desc).
Proof.
  intros H. unfold desc_fragments. apply Forall_concat, List.Forall_forall. intros fs Hfs.
  apply in_map_iff in Hfs as [line [<- Hline]].
  pose proof (split_on_acc_Forall P 10 [] _ (List.Forall_nil _) (Forall_filter_chars P (fun c => negb (c =? 13)) _ H)) as Hl.
  apply (proj1 (List.Forall_forall _ _) Hl) in Hline.
  unfold line_fragments. destruct (truthy (strip_marks line)); [|constructor].
  apply split_delims_acc_Forall; [constructor|].
  unfold strip_marks. apply Forall_rev, lstrip_marks_Forall, Forall_rev, lstrip_marks_Forall, Hline.
Qed.

(** X19: a description made only of whitespace (say ["\n \t"]) is truthy,
    yet yields no bullet: yt_minutes.py then shows a single bullet made of
    the lone ellipsis ["…"] (9 lines for the item), and yt_news.py shows an
    empty description. *)
Theorem whitespace_description rt idx it desc :
  m_description it = Some desc -> desc <> [] -> Forall (fun c => is_ws c = true) desc ->
  bullets_from_description desc 3 = [] /\
  nth_error (minutes_item_lines rt idx it) 4 = Some (lit_bullet ++ ELLIPSIS) /\
  length (minutes_item_lines rt idx it) = 9%nat /\
  trim desc 180 = [].
Proof.
  intros Hd Hne Hws.
  assert (Hn : forall g, Forall (fun c => is_ws c = true) g -> normalize_text g = []).
  { intros g Hg. rewrite normalize_text_collapse. by apply collapse_ws_all_ws. }
  assert (Hb : bullets_from_description desc 3 = []).
  { rewrite bullets_from_description_eq.
    pose proof (desc_fragments_Forall _ desc Hws) as Hf.
    induction (desc_fragments desc) as [|g frs IH]; [reflexivity|].
    inversion Hf as [|? ? Hg Hfrs]; subst. cbn [map List.filter].
    rewrite (Hn g Hg). exact (IH Hfrs). }
  split; [exact Hb|].
  assert (Ht : truthy desc = true) by (destruct desc; [contradiction|reflexivity]).
  assert (Hl : minutes_item_lines rt idx it =
    [lit_agenda_open ++ py_str_int (Z.of_nat idx) ++ lit_agenda_close ++ get_or (m_title it) (s_ "(no title)");
     lit_date ++ to_jst_str rt (m_publishedAt it) ++ s_ " JST";
     lit_presenter ++ get_or (m_channelTitle it) (s_ "(unknown)");
     lit_summary;
     lit_bullet ++ ELLIPSIS;
     lit_url ++ (WATCH_URL ++ m_id it);
     lit_tag ++ (let tags := join_with [32] (map (fun t => [35] ++ t)
                   (make_tags (py_lower rt) (get_or (m_title it) (s_ "(no title)")) desc)) in
                 if truthy tags then tags else lit_none);
     lit_rule; []]).
  { unfold minutes_item_lines. rewrite Hd. simpl get_or. rewrite Ht, Hb, (Hn desc Hws). reflexivity. }
  rewrite Hl. split; [reflexivity|]. split; [reflexivity|].
  rewrite trim_eq, (Hn desc Hws). reflexivity.
Qed.

Lemma whitespace_description_witness :
  let it := {| m_id := s_ "v1"; m_title := Some (s_ "t"); m_channelTitle := None;
               m_description := Some [10; 32; 9]; m_publishedAt := s_ "2026-10-18T05:00:00Z" |} in
  bullets_from_description [10; 32; 9] 3 = [] /\
  nth_error (minutes_item_lines sample_rt 1 it) 4 = Some (lit_bullet ++ ELLIPSIS) /\
  length (minutes_item_lines sample_rt 1 it) = 9%nat /\
  trim [10; 32; 9] 180 = [].
Proof.
  intros it. apply (whitespace_description sample_rt 1 it [10; 32; 9]).
  - reflexivity.
  - discriminate.
  - repeat constructor.
Defined.

(* ------------------------------------------------------------------ *)
(** ** No qualifying id is lost by the loop over the channels *)

Ltac unfold_collect_step H :=
  cbn [collect_ids] in H;
  unfold get_uploads_pid, list_recent_video_ids, M_bind, call, M_ret, M_raise in H.

Lemma collect_ids_mono api cfg cutoff chs acc log log' r :
  collect_ids api cfg cutoff chs acc log = (log', Ok r) -> acc ⊆ r.
Proof.
  revert acc log. induction chs as [|ch chs IH]; intros acc log H.
  { injection H as _ <-. set_solver. }
  unfold_collect_step H.
  destruct (api_channels api ch) as [[|it items]|e]; cbn in H; [exact (IH _ _ H)| |discriminate].
  destruct (ci_uploads it) as [u|]; cbn in H; [|discriminate].
  destruct (truthy u); cbn in H; [|exact (IH _ _ H)].
  destruct (api_playlist api u _); cbn in H; [|discriminate].
  apply IH in H. unfold set_update in H. set_solver.
Qed.

(** X20: when the loop over the channels completes, every entry of a
    [playlistItems.list] answer it received that passes the recency filter
    has its [videoId] in the resulting set. *)
Theorem collect_ids_complete api cfg cutoff chs acc log evs r pid m items it :
  collect_ids api cfg cutoff chs acc log = (log ++ evs, Ok r) ->
  In (EvPlaylist pid m) evs ->
  api_playlist api pid m = Ok items ->
  In it items ->
  keep_recent cutoff it = true ->
  pi_videoId it ∈ r.
Proof.
  intros H Hin Hpl Hit Hk. revert acc log evs H Hin.
  induction chs as [|ch chs IH]; intros acc log evs H Hin.
  { injection H as Hl _. rewrite <- (app_nil_r log) in Hl at 1.
    apply app_inv_head in Hl. subst evs. destruct Hin. }
  pose proof H as H0. unfold_collect_step H.
  assert (Hstep : forall acc0 pre,
    collect_ids api cfg cutoff chs acc0 (log ++ pre) = (log ++ evs, Ok r) ->
    ~ In (EvPlaylist pid m) pre -> pi_videoId it ∈ r).
  { intros acc0 pre Hc Hnot.
    destruct (collect_ids_log api cfg cutoff chs acc0 (log ++ pre)) as [evs2 [Hl2 _]].
    rewrite Hc in Hl2. simpl in Hl2. rewrite <- app_assoc in Hl2. apply app_inv_head in Hl2.
    subst evs. apply in_app_or in Hin as [Hin|Hin]; [contradiction|].
    apply (IH acc0 (log ++ pre) evs2); [by rewrite <- app_assoc|exact Hin]. }
  destruct (api_channels api ch) as [[|ci cis]|e]; cbn in H; [| |discriminate].
  { apply (Hstep acc [EvChannels ch]); [exact H|intros [Hx|[]]; discriminate]. }
  destruct (ci_uploads ci) as [u|]; cbn in H; [|discriminate].
  destruct (truthy u); cbn in H.
  2: { apply (Hstep acc [EvChannels ch]); [exact H|intros [Hx|[]]; discriminate]. }
  destruct (api_playlist api u (Z.min (MAX_PER_CHANNEL cfg) 50)) as [pl|e] eqn:Hu; cbn in H;
    [|discriminate].
  rewrite <- app_assoc in H.
  destruct (collect_ids_log api cfg cutoff chs (set_update acc (recent_ids cutoff pl))
              (log ++ [EvChannels ch] ++ [EvPlaylist u (Z.min (MAX_PER_CHANNEL cfg) 50)]))
    as [evs2 [Hl2 _]].
  rewrite H in Hl2. simpl in Hl2. rewrite <- app_assoc in Hl2. apply app_inv_head in Hl2.
  subst evs. simpl in Hin. destruct Hin as [Hx|[Hx|Hin]]; [discriminate| |].
  - injection Hx as <- <-. rewrite Hu in Hpl. injection Hpl as <-.
    apply (collect_ids_mono _ _ _ _ _ _ _ _ H). unfold set_update.
    apply elem_of_union_r, elem_of_list_to_set, list_elem_of_In.
    rewrite recent_ids_filter. apply in_map, filter_In. auto.
  - apply (IH (set_update acc (recent_ids cutoff pl))
              (log ++ [EvChannels ch] ++ [EvPlaylist u (Z.min (MAX_PER_CHANNEL cfg) 50)]) evs2);
      [|exact Hin]. rewrite H, <- !app_assoc. reflexivity.
Qed.

Lemma collect_ids_complete_witness :
  s_ "v1" ∈ ({[s_ "v1"]} : gset str).
Proof.
  apply (collect_ids_complete (one_channel_api [recent_v1]) sample_cfg (s_ "2026-10-18T00:00:00Z")
           [s_ "UC1"] ∅ [] [EvChannels (s_ "UC1"); EvPlaylist (s_ "UU1") 10] {[s_ "v1"]}
           (s_ "UU1") 10 [recent_v1] recent_v1).
  - vm_compute. reflexivity.
  - right. left. reflexivity.
  - reflexivity.
  - left. reflexivity.
  - vm_compute. reflexivity.
Defined.

(** X21: a channel whose first item has an empty [uploads] id is skipped
    like a channel without items ([if not upid: continue]): its playlist
    is not requested and the set is unchanged. *)
Theorem collect_skips_empty_uploads api cfg cutoff ch rest acc log it items :
  api_channels api ch = Ok (it :: items) ->
  ci_uploads it = Some [] ->
  collect_ids api cfg cutoff (ch :: rest) acc log =
    collect_ids api cfg cutoff rest acc (log ++ [EvChannels ch]).
Proof.
  intros H Hu. cbn [collect_ids].
  unfold get_uploads_pid, M_bind, call, M_ret, M_raise. rewrite H. cbn. by rewrite Hu.
Qed.

Lemma collect_skips_empty_uploads_witness :
  collect_ids empty_uploads_api sample_cfg (s_ "2026-10-18T00:00:00Z") [s_ "UC1"; s_ "UC2"] ∅ [] =
    collect_ids empty_uploads_api sample_cfg (s_ "2026-10-18T00:00:00Z") [s_ "UC2"] ∅
      ([] ++ [EvChannels (s_ "UC1")]).
Proof.
  apply (collect_skips_empty_uploads empty_uploads_api sample_cfg (s_ "2026-10-18T00:00:00Z")
           (s_ "UC1") [s_ "UC2"] ∅ [] {| ci_uploads := Some [] |} []); reflexivity.
Defined.
